(** * image-describer: the retry controller, URL resolver, tag normalisation
      and presenter of [describe.py]

    A shallow embedding of the core of [src/describe.py] and the proofs of
    the properties its specification states about it.

    Modelling conventions.
    - A Python call either returns or raises: [outcome].  The exceptions of
      the model are the instances of Python's [Exception] class, the ones a
      [try] statement of the program can see; interpreter exits
      ([KeyboardInterrupt], [SystemExit]) are not program behaviour and are
      not modelled.
    - The dict literals with fixed keys that the program builds (the
      analysis record, a tag entry, a caption) are records with one field
      per key; a key holding [None] is an [option] field.
    - Confidence values and the threshold are Python floats.  The program
      only tests them for truthiness, compares them and prints them, so a
      [float] is the rational number a finite float denotes ([Fin]), an
      infinity, or NaN, with the comparisons of IEEE 754: NaN is neither
      below, equal to, nor above anything.
    - The remote service, the HTTP session and the file system are a
      [world]: one oracle per external call, indexed by the number of the
      attempt that makes the call.
    - What a call of [analyze_one] does to the outside is a trace of
      [event]s.  A sleep is an event; its duration (the random pacing
      interval, [backoff ** (attempt + 1)]) is not computed.
    - [while True] is a fuelled loop; the theorems say how much fuel is
      enough. *)

From Stdlib Require Import String Ascii List ZArith QArith Bool Lia.
From Stdlib Require Import Sorting.Permutation Sorting.Sorted DecimalString.
Import ListNotations.
Local Open Scope string_scope.
Local Open Scope list_scope.

(* ================================================================== *)
(** * Python values and control flow *)

(** The exception classes the two [except] clauses of [analyze_one]
    distinguish (line 129); every other [Exception] is [OtherException]. *)
Inductive exc_class : Type :=
| HttpResponseError
| ServiceRequestError
| ServiceResponseError
| OtherException.

(** What the handlers read from a caught exception [e]:
    [type(e).__name__], [getattr(e, "status_code", None)],
    [getattr(getattr(e, "response", None), "status_code", None)], [str(e)]. *)
Record exn : Type := mk_exn {
  exc_class_of : exc_class;
  exc_type_name : string;
  exc_status_code : option Z;
  exc_response_status : option Z;
  exc_str : string
}.

Inductive outcome (A : Type) : Type :=
| Ret (a : A)
| Raise (e : exn).
Arguments Ret {A} a.
Arguments Raise {A} e.

Definition bind {A B : Type} (c : outcome A) (k : A -> outcome B) : outcome B :=
  match c with
  | Ret a => k a
  | Raise e => Raise e
  end.

Notation "x <- c ;; k" := (bind c (fun x => k))
  (at level 61, c at next level, right associativity).

(** A Python float. *)
Inductive float : Type :=
| Fin (q : Q)
| PosInf
| NegInf
| NaN.

Definition Qlt_bool (x y : Q) : bool := negb (Qle_bool y x).

(** [a == b], [a < b] and [a <= b] on floats ([a >= b] is [b <= a]). *)
Definition float_eqb (a b : float) : bool :=
  match a, b with
  | Fin x, Fin y => Qeq_bool x y
  | PosInf, PosInf => true
  | NegInf, NegInf => true
  | _, _ => false
  end.

Definition float_ltb (a b : float) : bool :=
  match a, b with
  | Fin x, Fin y => Qlt_bool x y
  | NegInf, Fin _ => true
  | NegInf, PosInf => true
  | Fin _, PosInf => true
  | _, _ => false
  end.

Definition float_leb (a b : float) : bool :=
  match a, b with
  | Fin x, Fin y => Qle_bool x y
  | NegInf, Fin _ => true
  | NegInf, PosInf => true
  | Fin _, PosInf => true
  | PosInf, PosInf => true
  | NegInf, NegInf => true
  | _, _ => false
  end.

(** Truthiness of the values the program puts under [or]: a number is
    falsy when it is zero (NaN and the infinities are truthy). *)
Definition truthy_str (s : string) : bool := negb (String.eqb s "").
Definition truthy_num (q : Q) : bool := negb (Qeq_bool q 0).
Definition truthy_float (x : float) : bool :=
  match x with
  | Fin q => truthy_num q
  | _ => true
  end.
Definition truthy_int (z : Z) : bool := negb (Z.eqb z 0).

(** [a or b]: [a] when it is truthy, else [b] (whatever [b] is).  [None]
    is falsy. *)
Definition py_or {A : Type} (truthy : A -> bool) (a b : option A) : option A :=
  match a with
  | Some x => if truthy x then a else b
  | None => b
  end.

(** [sub in s] on strings. *)
Fixpoint contains (sub s : string) : bool :=
  if String.prefix sub s then true
  else match s with
       | EmptyString => false
       | String _ s' => contains sub s'
       end.

(** [l[:k]]: a negative [k] counts from the end. *)
Definition slice_to {A : Type} (l : list A) (k : Z) : list A :=
  if (0 <=? k)%Z then firstn (Z.to_nat k) l
  else firstn (length l - Z.to_nat (- k)) l.

Definition str_of_nat (n : nat) : string :=
  NilZero.string_of_uint (Nat.to_uint n).

(** [f"{x:.2f}"] on the rational a finite float denotes: round to the
    nearest hundredth, ties to even, sign kept. *)
Definition round_half_even (a : Z) (d : positive) : Z :=
  let k := (a / Zpos d)%Z in
  let r := (a mod Zpos d)%Z in
  if (Zpos d <? 2 * r)%Z then (k + 1)%Z
  else if (2 * r =? Zpos d)%Z then (if Z.even k then k else k + 1)%Z
  else k.

Definition format_2f (x : Q) : string :=
  let n := round_half_even (Z.abs (Qnum x) * 100) (Qden x) in
  let frac := Z.to_nat (n mod 100) in
  (if (Qnum x <? 0)%Z then "-" else "")
  ++ str_of_nat (Z.to_nat (n / 100)) ++ "."
  ++ (if (frac <? 10)%nat then "0" else "") ++ str_of_nat frac.

(** [f"{x:.2f}"] on a float. *)
Definition format_float_2f (x : float) : string :=
  match x with
  | Fin q => format_2f q
  | PosInf => "inf"
  | NegInf => "-inf"
  | NaN => "nan"
  end.

(* ================================================================== *)
(** * [sorted(iterable, key=..., reverse=...)] *)

(** The built-in sort is stable and compares keys with [<] only; with
    [reverse=True] it sorts the reversed list and reverses the result,
    which keeps equal keys in their original order.  A comparison that
    raises aborts the sort.  Where [<] is a strict weak order of the keys,
    every stable sort returns the same list, the one computed here by
    insertion.  Where it is not (keys with NaN), the arrangement depends
    on the algorithm: of such a list the theorems state only what holds of
    every rearrangement, and in the one list with NaN that is evaluated,
    [nan_tags], reversed, no key is below the key before it: the built-in
    sort takes such a list for sorted and leaves it as it is, as the
    insertion does. *)
Section PySorted.
Context {A K : Type} (key : A -> K) (lt : K -> K -> outcome bool).

Fixpoint insert_sorted (x : A) (l : list A) : outcome (list A) :=
  match l with
  | [] => Ret [x]
  | y :: l' =>
      b <- lt (key y) (key x) ;;
      if b : bool then (r <- insert_sorted x l' ;; Ret (y :: r))
      else Ret (x :: y :: l')
  end.

Fixpoint list_sort (l : list A) : outcome (list A) :=
  match l with
  | [] => Ret []
  | x :: l' => s <- list_sort l' ;; insert_sorted x s
  end.

Definition sorted (l : list A) (reverse : bool) : outcome (list A) :=
  if reverse then (s <- list_sort (rev l) ;; Ret (rev s))
  else list_sort l.
End PySorted.

(* ================================================================== *)
(** * Data model *)

(** A normalised tag entry [{"name": ..., "confidence": ...}] (line 115). *)
Record tag : Type := mk_tag {
  tag_name : string;
  tag_confidence : option float
}.

(** The caption dict [{"text": ..., "confidence": ...}] (line 124). *)
Record caption_entry : Type := mk_caption {
  caption_text : option string;
  caption_confidence : option float
}.

(** The serialised service response, [result.as_dict()]. *)
Definition raw_dict : Type := list (string * string).

(** The dict [analyze_one] returns (lines 120-127, 136, 138). *)
Record record : Type := mk_record {
  source : string;
  success : bool;
  error : option string;
  caption : option caption_entry;
  tags : list tag;
  raw : option raw_dict
}.

(** The service's result object, as far as [analyze_one] looks at it with
    [getattr]/[hasattr]: an absent attribute and an attribute holding
    [None] both read as [None]. *)
Record raw_caption : Type := mk_raw_caption {
  rc_text : option string;
  rc_content : option string;
  rc_confidence : option float
}.

Record raw_tag : Type := mk_raw_tag {
  rt_name : option string;
  rt_text : option string;
  rt_confidence : option float;
  rt_score : option float
}.

(** The shapes of [result.tags] lines 102-109 tell apart. *)
Inductive tags_object : Type :=
| TagsValues (l : list raw_tag)     (* has [values] (attribute or method) *)
| TagsList (l : list raw_tag)       (* has [list] (attribute or method) *)
| TagsSequence (l : list raw_tag)   (* a plain list or tuple *)
| TagsOpaque.                       (* none of these *)

Record analysis_result : Type := mk_result {
  res_caption : option raw_caption;
  res_tags : option tags_object;
  res_as_dict : option raw_dict
}.

(** The response of [session.get]: [response.url] and
    [response.headers.get('Content-Type')]. *)
Record response : Type := mk_response {
  resp_url : string;
  resp_content_type : option string
}.

(** ** The environment *)

Record world : Type := mk_world {
  random_choice : nat -> nat;
  session_get : nat -> string -> list (string * string) -> outcome response;
  client_analyze_from_url : nat -> string -> outcome analysis_result;
  open_rb : nat -> string -> outcome string;
  client_analyze : nat -> string -> outcome analysis_result
}.

(** What one call of [analyze_one] does to the outside, in order. *)
Inductive event : Type :=
| EvPacingSleep                                   (* line 80 *)
| EvGet (url : string) (headers : list (string * string))
| EvAnalyzeFromUrl (image_url : string)
| EvOpen (path : string)
| EvAnalyze (path : string)
| EvBackoffSleep (exponent : nat).                (* line 133: backoff ** exponent *)

(* ================================================================== *)
(** * URL resolver (lines 57-71) *)

Definition user_agents : list string := [
  "Mozilla/5.0 (Windows NT 10.0; Win64; x64) AppleWebKit/537.36 (KHTML, like Gecko) Chrome/120.0.0.0 Safari/537.36";
  "Mozilla/5.0 (Windows NT 10.0; Win64; x64) AppleWebKit/537.36 (KHTML, like Gecko) Firefox/120.0";
  "Mozilla/5.0 (Macintosh; Intel Mac OS X 10_15_7) AppleWebKit/537.36 (KHTML, like Gecko) Safari/537.36"
].

Definition request_headers (w : world) (i : nat) (url : string)
  : list (string * string) :=
  [ ("User-Agent", nth (random_choice w i mod length user_agents) user_agents "");
    ("Referer", url) ].

(** [Exception(f"URL did not resolve to a valid image: {url}")] *)
Definition not_an_image (url : string) : exn :=
  mk_exn OtherException "Exception" None None
         ("URL did not resolve to a valid image: " ++ url).

Definition fetch_image_url_with_headers (w : world) (i : nat) (url : string)
  : outcome string :=
  let headers := request_headers w i url in
  response <- session_get w i url headers ;;
  if contains "image"
       (match resp_content_type response with Some v => v | None => "" end)
  then Ret (resp_url response)
  else Raise (not_an_image url).

(* ================================================================== *)
(** * Normalisation of the service result (lines 95-127) *)

(** Lines 99-109. *)
Definition raw_tags_of (tags_obj : option tags_object) : list raw_tag :=
  match tags_obj with
  | None => []
  | Some (TagsValues v) => v
  | Some (TagsList l) => l
  | Some (TagsSequence s) => s
  | Some TagsOpaque => []
  end.

(** Lines 111-118: the body of the [for] loop; [float(conf)] is the
    identity on a float. *)
Definition normalize_tag (t : raw_tag) : option tag :=
  let name := py_or truthy_str (rt_name t) (rt_text t) in
  let conf := py_or truthy_float (rt_confidence t) (rt_score t) in
  match name with
  | Some n => Some (mk_tag n conf)
  | None => None
  end.

Fixpoint normalize_tags (raw_tags : list raw_tag) : list tag :=
  match raw_tags with
  | [] => []
  | t :: rest =>
      match normalize_tag t with
      | Some entry => entry :: normalize_tags rest
      | None => normalize_tags rest
      end
  end.

(** Line 125: the key [(x["confidence"] is not None, x["confidence"])]. *)
Definition sort_key (x : tag) : bool * option float :=
  (match tag_confidence x with Some _ => true | None => false end,
   tag_confidence x).

(** ['<' not supported between instances of 'NoneType' and 'float'] *)
Definition type_error : exn :=
  mk_exn OtherException "TypeError" None None
         "'<' not supported between these instances".

Definition conf_eq (a b : option float) : bool :=
  match a, b with
  | None, None => true
  | Some x, Some y => float_eqb x y
  | _, _ => false
  end.

Definition conf_lt (a b : option float) : outcome bool :=
  match a, b with
  | Some x, Some y => Ret (float_ltb x y)
  | _, _ => Raise type_error
  end.

(** [<] on 2-tuples: the first components that differ decide; equal
    tuples are not below each other.  [False < True].  (Tuples first test
    their components for identity, so one NaN object is equal to itself
    here; the answer is the same, since NaN is not below NaN.) *)
Definition key_lt (k1 k2 : bool * option float) : outcome bool :=
  let '(b1, c1) := k1 in
  let '(b2, c2) := k2 in
  if negb (Bool.eqb b1 b2) then Ret (negb b1 && b2)
  else if negb (conf_eq c1 c2) then conf_lt c1 c2
  else Ret false.

Definition sort_tags (tags_list : list tag) : outcome (list tag) :=
  sorted sort_key key_lt tags_list true.

(** Lines 95-127, after the service call has returned [result]. *)
Definition success_record (source : string) (result : analysis_result)
  : outcome record :=
  let caption_text :=
    match res_caption result with
    | Some c => py_or truthy_str (rc_text c) (rc_content c)
    | None => None
    end in
  let caption_conf :=
    match res_caption result with
    | Some c => rc_confidence c
    | None => None
    end in
  let tags_list := normalize_tags (raw_tags_of (res_tags result)) in
  sorted_tags <- sort_tags tags_list ;;
  Ret (mk_record source true None
                 (Some (mk_caption caption_text caption_conf))
                 sorted_tags
                 (res_as_dict result)).

(* ================================================================== *)
(** * Retry controller: [analyze_one] (lines 75-138) *)

Definition is_url (source : string) : bool :=
  String.prefix "http://" source || String.prefix "https://" source.

(** The [try] block of attempt [i] (lines 82-127): the value of [source]
    when the block is left, the calls made, and how the block ended. *)
Definition try_block (w : world) (i : nat) (source : string)
  : string * list event * outcome record :=
  if is_url source then
    let get := EvGet source (request_headers w i source) in
    match fetch_image_url_with_headers w i source with
    | Raise e => (source, [get], Raise e)
    | Ret resolved =>
        match client_analyze_from_url w i resolved with
        | Raise e => (resolved, [get; EvAnalyzeFromUrl resolved], Raise e)
        | Ret result =>
            (resolved, [get; EvAnalyzeFromUrl resolved],
             success_record resolved result)
        end
    end
  else
    match open_rb w i source with
    | Raise e => (source, [EvOpen source], Raise e)
    | Ret f =>
        match client_analyze w i f with
        | Raise e => (source, [EvOpen source; EvAnalyze source], Raise e)
        | Ret result =>
            (source, [EvOpen source; EvAnalyze source],
             success_record source result)
        end
    end.

(** Lines 136 and 138. *)
Definition failure_record (source : string) (e : exn) : record :=
  mk_record source false
            (Some (exc_type_name e ++ ": " ++ exc_str e)%string)
            None [] None.

(** Line 130. *)
Definition status_of (e : exn) : option Z :=
  py_or truthy_int (exc_status_code e) (exc_response_status e).

Definition retry_statuses : list Z := [429; 500; 502; 503; 504]%Z.

Definition status_in (status : option Z) (l : list Z) : bool :=
  match status with
  | Some s => existsb (Z.eqb s) l
  | None => false
  end.

Definition is_transport (e : exn) : bool :=
  match exc_class_of e with
  | ServiceRequestError | ServiceResponseError => true
  | _ => false
  end.

(** Line 131. *)
Definition retriable (e : exn) : bool :=
  status_in (status_of e) retry_statuses || is_transport e.

(** How one turn of the [while True] loop ends. *)
Inductive turn : Type :=
| Return (r : record)
| Continue (source : string).

(** One turn of the loop at [attempt] (lines 80-138). *)
Definition loop_body (w : world) (retries : Z) (attempt : nat) (source : string)
  : list event * turn :=
  let '(source, calls, res) := try_block w attempt source in
  match res with
  | Ret r => (EvPacingSleep :: calls, Return r)
  | Raise e =>
      match exc_class_of e with
      | OtherException =>
          (EvPacingSleep :: calls, Return (failure_record source e))
      | _ =>
          if (Z.of_nat attempt <? retries)%Z && retriable e
          then (EvPacingSleep :: calls ++ [EvBackoffSleep (attempt + 1)],
                Continue source)
          else (EvPacingSleep :: calls, Return (failure_record source e))
      end
  end.

Fixpoint analyze_loop (fuel : nat) (w : world) (retries : Z)
         (attempt : nat) (source : string) : option (record * list event) :=
  match fuel with
  | O => None
  | S fuel' =>
      match loop_body w retries attempt source with
      | (evs, Return r) => Some (r, evs)
      | (evs, Continue source') =>
          match analyze_loop fuel' w retries (S attempt) source' with
          | Some (r, evs') => Some (r, evs ++ evs')
          | None => None
          end
      end
  end.

(** Line 75: [retries: int = 4]. *)
Definition default_retries : Z := 4.

(** [analyze_one(source, session, retries, timeout)]: the record returned
    and the events of the call.  The session is part of the [world];
    [timeout] is not used by the function. *)
Definition analyze_one (fuel : nat) (w : world) (source : string) (retries : Z)
  : option (record * list event) :=
  analyze_loop fuel w retries 0 source.

(** The attempts of a run: the turns of the loop, each of which starts with
    the pacing sleep; and the calls of the analyze operations among them. *)
Definition is_pacing (ev : event) : bool :=
  match ev with EvPacingSleep => true | _ => false end.

Definition is_analyze_call (ev : event) : bool :=
  match ev with EvAnalyzeFromUrl _ | EvAnalyze _ => true | _ => false end.

Definition is_backoff (ev : event) : bool :=
  match ev with EvBackoffSleep _ => true | _ => false end.

Definition attempts (trace : list event) : nat :=
  length (filter is_pacing trace).

Definition analyze_calls (trace : list event) : nat :=
  length (filter is_analyze_call trace).

Definition retries_made (trace : list event) : nat :=
  length (filter is_backoff trace).

(* ================================================================== *)
(** * Presenter: [print_result] (lines 141-157) *)

Definition newline : string := String (ascii_of_nat 10) "".

(** Lines 147 and 154. *)
Definition conf_suffix (conf : option float) : string :=
  match conf with
  | Some c => (" (" ++ format_float_2f c ++ ")")%string
  | None => ""
  end.

(** Line 151: the tags the list comprehension keeps. *)
Definition passes (threshold : float) (t : tag) : bool :=
  match tag_confidence t with
  | None => true
  | Some c => float_leb threshold c
  end.

Definition tag_line (t : tag) : string :=
  "- " ++ tag_name t ++ conf_suffix (tag_confidence t).

(** Lines 144-148. *)
Definition caption_lines (entry : record) : list string :=
  match caption entry with
  | Some cap =>
      match caption_text cap with
      | Some text =>
          if truthy_str text
          then [("Caption: " ++ text ++ conf_suffix (caption_confidence cap))%string]
          else []
      | None => []
      end
  | None => []
  end.

(** Lines 149-152: the tags that get a line. *)
Definition shown_tags (entry : record) (top_k : Z) (threshold : option float)
  : list tag :=
  let tags := tags entry in
  let tags := match threshold with
              | Some th => filter (passes th) tags
              | None => tags
              end in
  slice_to tags top_k.

(** The lines printed, one per [print] call. *)
Definition print_result (entry : record) (top_k : Z) (threshold : option float)
  : list string :=
  (newline ++ "== " ++ source entry)%string ::
  (if success entry then
     caption_lines entry ++ map tag_line (shown_tags entry top_k threshold)
   else
     [("ERROR: " ++ match error entry with Some s => s | None => "None" end)%string]).

(* ================================================================== *)
(** * CSV summary of [main] (lines 206-220) *)

(** A value handed to the CSV writer. *)
Inductive cell : Type :=
| CellStr (s : string)
| CellNum (x : float)
| CellNone.

Definition blank : cell := CellStr "".

(** Line 211. *)
Definition csv_header (top_k : Z) : list cell :=
  [CellStr "source"; CellStr "caption"; CellStr "caption_confidence"]
  ++ map (fun i => CellStr ("tag_" ++ str_of_nat (i + 1)))
         (seq 0 (Z.to_nat top_k)).

(** Lines 214-220: the row written for [e]. *)
Definition csv_row (e : record) (top_k : Z) : list cell :=
  let header := csv_header top_k in
  if negb (success e) then
    [CellStr (source e); blank; blank] ++ repeat blank (Z.to_nat top_k)
  else
    let text := match caption e with
                | Some cap => match caption_text cap with
                              | Some s => CellStr s
                              | None => CellNone
                              end
                | None => blank
                end in
    let conf := match caption e with
                | Some cap => match caption_confidence cap with
                              | Some c => CellNum c
                              | None => CellNone
                              end
                | None => blank
                end in
    let tags := map (fun t => CellStr (tag_name t)) (slice_to (tags e) top_k) in
    let row := [CellStr (source e); text; conf] ++ tags in
    slice_to row (Z.of_nat (length header)).

Definition csv_rows (results : list record) (top_k : Z) : list (list cell) :=
  csv_header top_k :: map (fun e => csv_row e top_k) results.

(* ================================================================== *)
(** * Specification-level notions *)

(** The order of the floats, as propositions: that of the rationals on
    the finite floats, the infinities at the two ends, NaN in no relation
    to anything. *)
Definition float_le (a b : float) : Prop :=
  match a, b with
  | Fin x, Fin y => x <= y
  | NegInf, Fin _ | NegInf, PosInf | Fin _, PosInf => True
  | PosInf, PosInf | NegInf, NegInf => True
  | _, _ => False
  end.

Definition float_lt (a b : float) : Prop :=
  match a, b with
  | Fin x, Fin y => x < y
  | NegInf, Fin _ | NegInf, PosInf | Fin _, PosInf => True
  | _, _ => False
  end.

(** The order the specification asks of the [tags] field: [a] may stand
    before [b] when [a]'s confidence is at least [b]'s, and everything may
    stand before an entry without confidence. *)
Definition descending_nulls_last (a b : tag) : Prop :=
  match tag_confidence a, tag_confidence b with
  | Some x, Some y => float_le y x
  | Some _, None => True
  | None, None => True
  | None, Some _ => False
  end.

(** An entry whose confidence is not NaN. *)
Definition not_nan (t : tag) : Prop := tag_confidence t <> Some NaN.

(** The entries whose sort key equals that of confidence [k]. *)
Definition same_key (k : option float) (t : tag) : bool :=
  conf_eq (tag_confidence t) k.

(** Orders on a list given by a strict comparison [below] of its
    elements.  Ascending: nothing later is below something earlier;
    descending: nothing earlier is below something later. *)
Definition ascending {A : Type} (below : A -> A -> bool) (a b : A) : Prop :=
  below b a = false.
Definition descending {A : Type} (below : A -> A -> bool) (a b : A) : Prop :=
  below a b = false.

(** [tag_below a b]: the sort key of [a] is below that of [b]. *)
Definition tag_below (a b : tag) : bool :=
  match tag_confidence a, tag_confidence b with
  | None, Some _ => true
  | Some x, Some y => float_ltb x y
  | _, None => false
  end.

(** The classification of errors the specification gives (section 4.4). *)
Definition spec_retriable (e : exn) : Prop :=
  (exc_class_of e = HttpResponseError /\
   exists s, status_of e = Some s /\ In s [429; 500; 502; 503; 504]%Z)
  \/ exc_class_of e = ServiceRequestError
  \/ exc_class_of e = ServiceResponseError.

(** [sub] occurs in [s]. *)
Definition substring_of (sub s : string) : Prop :=
  exists pre post, s = (pre ++ sub ++ post)%string.

(** The [Content-Type] the resolver looks at. *)
Definition content_type_of (r : response) : string :=
  match resp_content_type r with Some v => v | None => "" end.

(** The tags the threshold filter of the specification drops. *)
Definition below_threshold (threshold : float) (t : tag) : Prop :=
  exists c, tag_confidence t = Some c /\ float_lt c threshold.

Definition below_threshold_b (threshold : float) (t : tag) : bool :=
  match tag_confidence t with
  | Some c => float_ltb c threshold
  | None => false
  end.

(** The tags that have a confidence which is not at least the threshold:
    the ones below it and, with NaN on either side, the ones that do not
    compare with it. *)
Definition not_at_least (threshold : float) (t : tag) : Prop :=
  exists c, tag_confidence t = Some c /\ ~ float_le threshold c.

Definition not_at_least_b (threshold : float) (t : tag) : bool :=
  match tag_confidence t with
  | Some c => negb (float_leb threshold c)
  | None => false
  end.

(** A total order of the floats that agrees with [<] off NaN (NaN is put
    below everything), and the order of the sort keys it gives. *)
Definition float_rank_ltb (a b : float) : bool :=
  match a, b with
  | NaN, NaN => false
  | NaN, _ => true
  | _, NaN => false
  | _, _ => float_ltb a b
  end.

Definition tag_below_total (a b : tag) : bool :=
  match tag_confidence a, tag_confidence b with
  | None, Some _ => true
  | Some x, Some y => float_rank_ltb x y
  | _, None => false
  end.

Definition key_lt_total (k1 k2 : bool * option float) : outcome bool :=
  Ret (match snd k1, snd k2 with
       | None, Some _ => true
       | Some x, Some y => float_rank_ltb x y
       | _, None => false
       end).

(** The status a service error carries: its own [status_code] or, when it
    has none, that of its response. *)
Definition carries_status (e : exn) (s : Z) : Prop :=
  exc_status_code e = Some s \/
  ((exc_status_code e = None \/ exc_status_code e = Some 0%Z) /\
   exc_response_status e = Some s).


(** The value of [source] when attempt [n] starts, all attempts before it
    having reached their analyze call: a URL is replaced by what the
    resolver returned for it. *)
Fixpoint source_at (w : world) (src : string) (n : nat) : string :=
  match n with
  | O => src
  | S m =>
      let s := source_at w src m in
      if is_url s then
        match fetch_image_url_with_headers w m s with
        | Ret resolved => resolved
        | Raise _ => s
        end
      else s
  end.

(** The analyze call of attempt [i], on the source [s], raises [e]. *)
Definition analyze_raises (w : world) (i : nat) (s : string) (e : exn) : Prop :=
  if is_url s then
    exists resolved, fetch_image_url_with_headers w i s = Ret resolved /\
                     client_analyze_from_url w i resolved = Raise e
  else
    exists f, open_rb w i s = Ret f /\ client_analyze w i f = Raise e.

(** The two kinds of record of the specification (section 3). *)
Definition is_success_record (r : record) : Prop :=
  success r = true /\ error r = None /\ exists cap, caption r = Some cap.

Definition is_failure_record (r : record) : Prop :=
  success r = false /\ (exists msg, error r = Some msg) /\
  caption r = None /\ tags r = [] /\ raw r = None.

(** Prefixing the events of the turns already made to the rest of a run. *)
Definition after (evs : list event) (rest : option (record * list event))
  : option (record * list event) :=
  match rest with
  | Some (r, evs') => Some (r, evs ++ evs')
  | None => None
  end.

(** A service error with HTTP status 503. *)
Definition service_error_503 (e : exn) : Prop :=
  exc_class_of e = HttpResponseError /\ carries_status e 503%Z.

(** Every call of an analyze operation raises an exception with
    property [P]. *)
Definition analyze_always_raises (P : exn -> Prop) (w : world) : Prop :=
  (forall i u, exists e, client_analyze_from_url w i u = Raise e /\ P e) /\
  (forall i f, exists e, client_analyze w i f = Raise e /\ P e).

(** Every attempt gets as far as its analyze call: URLs resolve and files
    open. *)
Definition analyze_always_reached (w : world) : Prop :=
  (forall i u, is_url u = true ->
               exists u', fetch_image_url_with_headers w i u = Ret u') /\
  (forall i p, is_url p = false -> exists f, open_rb w i p = Ret f).

(** ** Scenarios *)

Definition service_unavailable : exn :=
  mk_exn HttpResponseError "HttpResponseError" (Some 503%Z) None
         "Service Unavailable".

Definition bad_request : exn :=
  mk_exn HttpResponseError "HttpResponseError" (Some 400%Z) None
         "Bad Request".

Definition file_not_found : exn :=
  mk_exn OtherException "FileNotFoundError" None None
         "[Errno 2] No such file or directory: 'dog.jpg'".

Definition cat_result : analysis_result :=
  mk_result
    (Some (mk_raw_caption (Some "a cat on a sofa") None (Some (Fin (87 # 100)))))
    (Some (TagsList [mk_raw_tag (Some "cat") None (Some (Fin (99 # 100))) None]))
    None.

(** What [service_up] answers for [cat.jpg]. *)
Definition cat_record : record :=
  mk_record "cat.jpg" true None
            (Some (mk_caption (Some "a cat on a sofa") (Some (Fin (87 # 100)))))
            [mk_tag "cat" (Some (Fin (99 # 100)))]
            None.

(** A successful record with the tags A (0.9), B (0.2) and C (no
    confidence). *)
Definition abc_record : record :=
  mk_record "photo.jpg" true None
            (Some (mk_caption None None))
            [mk_tag "A" (Some (Fin (9 # 10))); mk_tag "B" (Some (Fin (2 # 10)));
             mk_tag "C" None]
            None.

(** Three tags one of which has NaN for confidence. *)
Definition nan_tags : list tag :=
  [mk_tag "a" (Some (Fin (1 # 10))); mk_tag "x" (Some NaN);
   mk_tag "b" (Some (Fin (9 # 10)))].

(** A successful record with these tags. *)
Definition nan_record : record :=
  mk_record "photo.jpg" true None (Some (mk_caption None None)) nan_tags None.

(** Raw tags reported with confidence 0.0: one with a score of 0.0, one
    with a score of 0.7. *)
Definition sky_zero_zero : raw_tag :=
  mk_raw_tag (Some "sky") None (Some (Fin 0)) (Some (Fin 0)).
Definition sky_zero_score : raw_tag :=
  mk_raw_tag (Some "sky") None (Some (Fin 0)) (Some (Fin (7 # 10))).

(** A service that is down: URLs resolve (after a redirect to a CDN), files
    open, every analyze call is answered with status 503. *)
Definition service_down : world :=
  mk_world (fun _ => 0%nat)
           (fun _ _ _ => Ret (mk_response "https://cdn.example/cat.png"
                                          (Some "image/png")))
           (fun _ _ => Raise service_unavailable)
           (fun _ _ => Ret "bytes")
           (fun _ _ => Raise service_unavailable).

(** A service that answers 503 twice and then works. *)
Definition service_flaky : world :=
  mk_world (fun _ => 0%nat)
           (fun _ u _ => Ret (mk_response u (Some "image/jpeg")))
           (fun i _ => if (i <? 2)%nat then Raise service_unavailable
                       else Ret cat_result)
           (fun _ _ => Ret "bytes")
           (fun i _ => if (i <? 2)%nat then Raise service_unavailable
                       else Ret cat_result).

(** A service that rejects the request (status 400) behind the same
    redirect. *)
Definition service_rejects : world :=
  mk_world (fun _ => 1%nat)
           (fun _ _ _ => Ret (mk_response "https://cdn.example/cat.png"
                                          (Some "image/png")))
           (fun _ _ => Raise bad_request)
           (fun _ _ => Ret "bytes")
           (fun _ _ => Raise bad_request).

(** A working service; links lead to HTML pages and files are missing
    except [cat.jpg]. *)
Definition service_up : world :=
  mk_world (fun _ => 2%nat)
           (fun _ u _ => Ret (mk_response u (Some "text/html; charset=utf-8")))
           (fun _ _ => Ret cat_result)
           (fun _ p => if String.eqb p "cat.jpg" then Ret "bytes"
                       else Raise file_not_found)
           (fun _ _ => Ret cat_result).

(* ================================================================== *)
(** * The rest of the program *)

(** Strings are sequences of characters; the characters of the model are
    the code points below 256. *)

(** ** Text helpers: [str.strip], [str.splitlines], slicing *)

(** [c.isspace()]: tab to carriage return, the four separators 28-31,
    space, next-line (133) and no-break space (160). *)
Definition is_space (c : ascii) : bool :=
  existsb (Nat.eqb (nat_of_ascii c))
          [9; 10; 11; 12; 13; 28; 29; 30; 31; 32; 133; 160]%nat.

Fixpoint lstrip (s : string) : string :=
  match s with
  | EmptyString => EmptyString
  | String c s' => if is_space c then lstrip s' else s
  end.

Fixpoint rstrip (s : string) : string :=
  match s with
  | EmptyString => EmptyString
  | String c s' =>
      match rstrip s' with
      | EmptyString => if is_space c then EmptyString else String c EmptyString
      | r => String c r
      end
  end.

(** [s.strip()] *)
Definition strip (s : string) : string := rstrip (lstrip s).

Definition LF : ascii := ascii_of_nat 10.
Definition CR : ascii := ascii_of_nat 13.

(** The characters [str.splitlines] breaks a line at: line feed, vertical
    tab, form feed, carriage return, the separators 28-30 and next-line. *)
Definition is_line_boundary (c : ascii) : bool :=
  existsb (Nat.eqb (nat_of_ascii c)) [10; 11; 12; 13; 28; 29; 30; 133]%nat.

(** A character in front of the lines of the rest of the text joins the
    first of them. *)
Definition cons_char (c : ascii) (lines : list string) : list string :=
  match lines with
  | [] => [String c EmptyString]
  | l :: ls => String c l :: ls
  end.

(** [s.splitlines()]: a carriage return followed by a line feed is one
    break; a break at the very end opens no further line. *)
Fixpoint splitlines (s : string) : list string :=
  match s with
  | EmptyString => []
  | String c s' =>
      if Ascii.eqb c CR then
        match s' with
        | String c' s'' =>
            if Ascii.eqb c' LF then EmptyString :: splitlines s''
            else EmptyString :: splitlines s'
        | EmptyString => EmptyString :: splitlines s'
        end
      else if is_line_boundary c then EmptyString :: splitlines s'
      else cons_char c (splitlines s')
  end.

(** [s[:n]] for a natural number [n]. *)
Fixpoint str_take (n : nat) (s : string) : string :=
  match n, s with
  | S n', String c s' => String c (str_take n' s')
  | _, _ => EmptyString
  end.

(** ** [iter_urls_from_file] (lines 46-51) *)

(** Lines 48-51, over the lines of the file. *)
Fixpoint url_lines (lines : list string) : list string :=
  match lines with
  | [] => []
  | line :: rest =>
      let s := strip line in
      if negb (truthy_str s) || String.prefix "#" s then url_lines rest
      else s :: url_lines rest
  end.

(** The URLs of a text: line 47 without the reading. *)
Definition urls_of_text (text : string) : list string :=
  url_lines (splitlines text).

(** ** [sanitize_filename] (lines 53-55) *)

(** The character class of line 54: backslash, slash, star, question mark,
    colon, double quote, less-than, greater-than, bar. *)
Definition unsafe_chars : list ascii :=
  map ascii_of_nat [92; 47; 42; 63; 58; 34; 60; 62; 124]%nat.

Definition is_unsafe (c : ascii) : bool := existsb (Ascii.eqb c) unsafe_chars.

Definition underscore : ascii := ascii_of_nat 95.

(** [re.sub(r'[...]', '_', url)] *)
Fixpoint sub_unsafe (url : string) : string :=
  match url with
  | EmptyString => EmptyString
  | String c s => String (if is_unsafe c then underscore else c) (sub_unsafe s)
  end.

Definition sanitize_filename (url : string) : string :=
  let filename := sub_unsafe url in
  str_take 100 filename.

(** ** Paths and [iter_images_from_dir] (lines 40-44) *)

(** A path is the sequence of its components, and paths compare as these
    sequences, case-sensitively (the POSIX flavour of [pathlib]).  [<] on
    sequences (of characters, of components): the first position that
    differs decides, and a proper prefix is below. *)
Definition path : Type := list string.

Fixpoint seq_lt {A : Type} (eqb ltb : A -> A -> bool) (l1 l2 : list A) : bool :=
  match l1, l2 with
  | [], [] => false
  | [], _ :: _ => true
  | _ :: _, [] => false
  | x :: l1', y :: l2' => if eqb x y then seq_lt eqb ltb l1' l2' else ltb x y
  end.

Definition char_lt (a b : ascii) : bool :=
  (nat_of_ascii a <? nat_of_ascii b)%nat.

Definition str_lt (s1 s2 : string) : bool :=
  seq_lt Ascii.eqb char_lt (list_ascii_of_string s1) (list_ascii_of_string s2).

Definition path_lt (p1 p2 : path) : bool := seq_lt String.eqb str_lt p1 p2.

(** [p.name] *)
Definition name_of (p : path) : string := last p EmptyString.

Definition dot : ascii := ascii_of_nat 46.

(** The part of [s] from its last dot on, when it has a dot. *)
Fixpoint from_last_dot (s : string) : option string :=
  match s with
  | EmptyString => None
  | String c s' =>
      match from_last_dot s' with
      | Some t => Some t
      | None => if Ascii.eqb c dot then Some s else None
      end
  end.

(** [p.suffix]: with [i = name.rfind('.')], [name[i:]] when
    [0 < i < len(name) - 1], else the empty string. *)
Definition suffix (p : path) : string :=
  match name_of p with
  | EmptyString => EmptyString
  | String _ rest =>
      match from_last_dot rest with
      | Some t => if (String.length t =? 1)%nat then EmptyString else t
      | None => EmptyString
      end
  end.

(** [c.lower()] on the code points below 256: A-Z, and the capital letters
    192-222 but for the multiplication sign. *)
Definition lower_char (c : ascii) : ascii :=
  let n := nat_of_ascii c in
  if ((65 <=? n) && (n <=? 90))%nat then ascii_of_nat (n + 32)
  else if ((192 <=? n) && (n <=? 222) && negb (n =? 215))%nat
       then ascii_of_nat (n + 32)
  else c.

Fixpoint lower (s : string) : string :=
  match s with
  | EmptyString => EmptyString
  | String c s' => String (lower_char c) (lower s')
  end.

(** Line 41. *)
Definition exts : list string :=
  [".jpg"; ".jpeg"; ".png"; ".bmp"; ".gif"; ".tif"; ".tiff"; ".webp"].

(** The file system the enumerators read: what [directory.rglob("*")]
    lists, [p.is_file()], and [file.read_text(encoding="utf-8")]; each of
    them can raise ([PermissionError], for one). *)
Record filesystem : Type := mk_fs {
  fs_rglob : string -> outcome (list path);
  fs_is_file : path -> outcome bool;
  fs_read_text : string -> outcome string
}.

(** Line 43: [p.suffix.lower() in exts and p.is_file()]; [and] asks
    [is_file] of a path with one of the suffixes only. *)
Definition is_image (fs : filesystem) (p : path) : outcome bool :=
  if existsb (String.eqb (lower (suffix p))) exts then fs_is_file fs p
  else Ret false.

(** Lines 42-44: the [for] loop over the sorted listing. *)
Fixpoint yield_images (fs : filesystem) (listing : list path)
  : outcome (list path) :=
  match listing with
  | [] => Ret []
  | p :: rest =>
      b <- is_image fs p ;;
      out <- yield_images fs rest ;;
      Ret (if b : bool then p :: out else out)
  end.

(** All that the generator yields, or what it raises. *)
Definition iter_images_from_dir (fs : filesystem) (directory : string)
  : outcome (list path) :=
  found <- fs_rglob fs directory ;;
  listing <- sorted (fun p : path => p)
                    (fun p q => Ret (path_lt p q))
                    found false ;;
  yield_images fs listing.

Definition iter_urls_from_file (fs : filesystem) (file : string)
  : outcome (list string) :=
  text <- fs_read_text fs file ;;
  Ret (urls_of_text text).

(** [str(p)] *)
Definition str_of_path (p : path) : string := String.concat "/" p.

(** ** Start-up (lines 22-29) *)

(** How the process ends: an exit code, or an exception nobody caught. *)
Inductive exit_status : Type :=
| Exited (code : Z)
| Uncaught (e : exn).

(** [os.getenv(name, "").strip()] for a variable of value [v] once
    [load_dotenv()] has run ([None]: not set). *)
Definition getenv_stripped (v : option string) : string :=
  strip (match v with Some s => s | None => EmptyString end).

(** Lines 24-29: the stripped endpoint and key, or exit code 2. *)
Definition load_credentials (vision_endpoint vision_key : option string)
  : exit_status + string * string :=
  let endpoint := getenv_stripped vision_endpoint in
  let key := getenv_stripped vision_key in
  if negb (truthy_str endpoint) || negb (truthy_str key)
  then inl (Exited 2)
  else inr (endpoint, key).

(** ** [main] (lines 174-222) *)

(** The namespace [parse_args] returns.  [arg_out] is the path
    [Path(args.out)] as a string. *)
Record args : Type := mk_args {
  arg_image : option string;
  arg_dir : option string;
  arg_urls : option string;
  arg_top_k : Z;
  arg_threshold : option float;
  arg_out : string;
  arg_csv : bool;
  arg_no_raw : bool
}.

(** What a run does, in order.  Creating the directory and writing the
    files are taken to succeed. *)
Inductive effect : Type :=
| Stderr (line : string)
| Stdout (line : string)
| MkdirParentOf (file : string)                      (* line 190 *)
| Calls (evs : list event)                           (* one [analyze_one] *)
| WriteJson (file : string) (entry : record)         (* lines 201-202 *)
| AppendJsonl (file : string) (entry : record)       (* lines 203-204 *)
| WriteCsv (file : string) (rows : list (list cell)).  (* lines 208-220 *)

Definition truthy_arg (a : option string) : bool :=
  match a with
  | Some s => truthy_str s
  | None => false
  end.

Definition arg_value (a : option string) : string :=
  match a with Some s => s | None => EmptyString end.

(** Lines 177-183. *)
Definition main_sources (fs : filesystem) (a : args) : outcome (list string) :=
  if truthy_arg (arg_image a) then Ret [arg_value (arg_image a)]
  else if truthy_arg (arg_dir a) then
    (ps <- iter_images_from_dir fs (arg_value (arg_dir a)) ;;
     Ret (map str_of_path ps))
  else if truthy_arg (arg_urls a) then
    iter_urls_from_file fs (arg_value (arg_urls a))
  else Ret [].

(** Line 200-201: the file of a record under [OUT_DIR]. *)
Definition json_file (entry : record) : string :=
  ("out/" ++ sanitize_filename (source entry) ++ ".json")%string.

(** Lines 196-204: what is done for one entry. *)
Definition entry_effects (a : args) (entry : record) (evs : list event)
  : list effect :=
  [Calls evs]
  ++ map Stdout (print_result entry (arg_top_k a) (arg_threshold a))
  ++ (if arg_no_raw a then [] else [WriteJson (json_file entry) entry])
  ++ [AppendJsonl (arg_out a) entry].

(** Lines 195-204: the loop over the sources; the [k]-th source meets the
    world [ws k].  The result is [results] and what was done. *)
Fixpoint main_loop (fuel : nat) (ws : nat -> world) (a : args) (k : nat)
         (sources : list string) : option (list record * list effect) :=
  match sources with
  | [] => Some ([], [])
  | src :: rest =>
      match analyze_one fuel (ws k) src default_retries with
      | None => None
      | Some (entry, evs) =>
          match main_loop fuel ws a (S k) rest with
          | None => None
          | Some (results, effs) =>
              Some (entry :: results, entry_effects a entry evs ++ effs)
          end
      end
  end.

(** Line 222. *)
Definition summary_line (a : args) (results : list record) : string :=
  (newline ++ "Done. " ++ str_of_nat (length (filter success results))
   ++ "/" ++ str_of_nat (length results)
   ++ " succeeded. JSONL: " ++ arg_out a)%string.

Definition main (fuel : nat) (fs : filesystem) (ws : nat -> world) (a : args)
  : option (exit_status * list effect) :=
  match main_sources fs a with
  | Raise e => Some (Uncaught e, [])
  | Ret [] => Some (Exited 1, [Stderr "No images found. Check your inputs."])
  | Ret sources =>
      match main_loop fuel ws a 0 sources with
      | None => None
      | Some (results, effs) =>
          Some (Exited 0,
                [MkdirParentOf (arg_out a)]
                ++ effs
                ++ (if arg_csv a
                    then [WriteCsv "out/results.csv"
                                   (csv_rows results (arg_top_k a))]
                    else [])
                ++ [Stdout (summary_line a results)])
      end
  end.

Definition is_write_json (ef : effect) : bool :=
  match ef with WriteJson _ _ => true | _ => false end.

Definition is_append_jsonl (ef : effect) : bool :=
  match ef with AppendJsonl _ _ => true | _ => false end.

Definition is_network (ef : effect) : bool :=
  match ef with Calls _ => true | _ => false end.

(** ** Notions for the properties of these functions *)

(** A strict total order given by two boolean tests. *)
Record strict_total {A : Type} (eqb ltb : A -> A -> bool) : Prop := {
  st_eqb : forall x y, eqb x y = true <-> x = y;
  st_irrefl : forall x, ltb x x = false;
  st_trans : forall x y z, ltb x y = true -> ltb y z = true -> ltb x z = true;
  st_total : forall x y, ltb x y = false -> ltb y x = false -> x = y
}.

Fixpoint list_eqb {A : Type} (eqb : A -> A -> bool) (l1 l2 : list A) : bool :=
  match l1, l2 with
  | [], [] => true
  | x :: l1', y :: l2' => eqb x y && list_eqb eqb l1' l2'
  | _, _ => false
  end.

(** The characters of a string. *)
Definition chars (s : string) : list ascii := list_ascii_of_string s.

(** A line [iter_urls_from_file] skips: blank, or a comment. *)
Definition skipped_line (line : string) : Prop :=
  strip line = EmptyString \/ String.prefix "#" (strip line) = true.

(** A URL as it can stand on a line of its own: not empty, no white space
    around it, not a comment, no line break in it. *)
Definition clean_url (u : string) : Prop :=
  u <> EmptyString /\ strip u = u /\ String.prefix "#" u = false /\
  forall c, In c (chars u) -> is_line_boundary c = false.

(** [LF.join(urls)] *)
Definition join_lines (urls : list string) : string :=
  String.concat (String LF EmptyString) urls.

(** ** More scenarios *)

Definition urls_txt : string :=
  ("# my images" ++ String LF "  https://a.example/1.png  "
   ++ String LF EmptyString ++ String LF "https://b.example/2.jpg" ++ String CR (String LF EmptyString))%string.

(** A directory with two images, a text file, and a folder named like an
    image. *)
Definition photos : filesystem :=
  mk_fs (fun _ => Ret [["d"; "sub"; "c.png"]; ["d"; "b.txt"]; ["d"; "a.JPG"];
                       ["d"; "sub"]; ["d"; "old.png"]])
        (fun p => Ret (negb (list_eqb String.eqb p ["d"; "sub"]
                             || list_eqb String.eqb p ["d"; "old.png"])))
        (fun f => if String.eqb f "urls.txt" then Ret urls_txt
                  else Raise file_not_found).

Definition permission_denied : exn :=
  mk_exn OtherException "PermissionError" None None
         "[Errno 13] Permission denied: 'd/vault/x.png'".

(** The same directory with an image in a folder that may not be
    searched. *)
Definition locked_photos : filesystem :=
  mk_fs (fun _ => Ret [["d"; "vault"; "x.png"]; ["d"; "a.JPG"];
                       ["d"; "vault"; "notes.txt"]])
        (fun p => match p with
                  | [_; "vault"%string; _] => Raise permission_denied
                  | _ => Ret true
                  end)
        (fun _ => Raise file_not_found).

(** The test of line 43 is passed by [p]. *)
Definition image_file (fs : filesystem) (p : path) : bool :=
  match is_image fs p with
  | Ret b => b
  | Raise _ => false
  end.

(** [is_file] answers for every listed path that it is asked of. *)
Definition is_file_answers (fs : filesystem) (listing : list path) : Prop :=
  forall p, In p listing -> In (lower (suffix p)) exts ->
            exists b, fs_is_file fs p = Ret b.

Definition args_image (image : string) : args :=
  mk_args (Some image) None None 5 None "out/results.jsonl" false false.

Definition args_urls (file : string) : args :=
  mk_args None None (Some file) 5 None "out/results.jsonl" true false.

Definition is_write_csv (ef : effect) : bool :=
  match ef with WriteCsv _ _ => true | _ => false end.

(** A variable that is not set, or set to white space only. *)
Definition blank_value (v : option string) : Prop :=
  forall c, In c (chars (arg_value v)) -> is_space c = true.

(** The calls of an attempt on a URL. *)
Definition is_url_call (ev : event) : bool :=
  match ev with EvGet _ _ | EvAnalyzeFromUrl _ => true | _ => false end.

(** The first [n] attempts on the file [src] open it and get a retriable
    error from the service. *)
Definition transient_until (w : world) (src : string) (n : nat) : Prop :=
  forall i, (i < n)%nat ->
            exists f e, open_rb w i src = Ret f /\
                        client_analyze w i f = Raise e /\
                        spec_retriable e.

(** The tags of a record before [top_k] cuts them. *)
Definition tags_above (entry : record) (threshold : option float) : list tag :=
  match threshold with
  | Some th => filter (passes th) (tags entry)
  | None => tags entry
  end.

(** A source of 104 characters. *)
Definition long_source : string :=
  "https://images.example.com/gallery/2024/summer/holiday/album-0001/photo-000123-large-original.jpg?token=".




Definition args_dir (dir : string) : args :=
  mk_args None (Some dir) None 5 None "out/results.jsonl" true true.

(** A file system whose URL list holds comments only and whose directory
    holds no image. *)
Definition nothing_to_do : filesystem :=
  mk_fs (fun _ => Ret [["d"; "notes.txt"]; ["d"; ".png"]])
        (fun _ => Ret true)
        (fun _ => Ret ("# nothing yet" ++ String LF "   " ++ String LF EmptyString)%string).

(** The events of [m] attempts on the file [src], from attempt [a] on, each
    of which ends in a retry. *)
Definition transient_turns (src : string) (a m : nat) : list event :=
  flat_map (fun i => [EvPacingSleep; EvOpen src; EvAnalyze src;
                      EvBackoffSleep (i + 1)])
           (seq a m).

(** A server that sends no [Content-Type]. *)
Definition service_untyped : world :=
  mk_world (fun _ => 0%nat)
           (fun _ u _ => Ret (mk_response u None))
           (fun _ _ => Ret cat_result)
           (fun _ _ => Ret "bytes")
           (fun _ _ => Ret cat_result).

(** The two URLs of [urls_txt]. *)
Definition url_1 : string := "https://a.example/1.png".
Definition url_2 : string := "https://b.example/2.jpg".

(* ================================================================== *)
(** * The stable sort *)

Section SortedFacts.
Context {A K : Type} (key : A -> K) (lt : K -> K -> outcome bool).
(** [below x y]: the comparison of the keys answers, and says
    [key x < key y]. *)
Variable below : A -> A -> bool.
Hypothesis lt_answers : forall x y, lt (key x) (key y) = Ret (below x y).
Hypothesis below_asym : forall x y, below x y = true -> below y x = false.
Hypothesis below_cotrans :
  forall x y z, below y x = false -> below z y = false -> below z x = false.

Lemma insert_sorted_returns x l :
  exists r, insert_sorted key lt x l = Ret r.
Proof.
  induction l as [|y l IH]; simpl; [eauto|].
  rewrite lt_answers; simpl.
  destruct (below y x); [|eauto].
  destruct IH as [r ->]; simpl; eauto.
Qed.

Lemma insert_sorted_perm x l r :
  insert_sorted key lt x l = Ret r -> Permutation (x :: l) r.
Proof.
  revert r; induction l as [|y l IH]; simpl; intros r H.
  - injection H as <-. apply Permutation_refl.
  - rewrite lt_answers in H; simpl in H.
    destruct (below y x).
    + destruct (insert_sorted key lt x l) as [r'|e]; simpl in H; [|discriminate].
      injection H as <-.
      apply perm_trans with (y :: x :: l); [apply perm_swap|].
      apply perm_skip, IH; reflexivity.
    + injection H as <-. apply Permutation_refl.
Qed.

Lemma insert_sorted_ascending x l r :
  StronglySorted (ascending below) l ->
  insert_sorted key lt x l = Ret r ->
  StronglySorted (ascending below) r.
Proof.
  revert r; induction l as [|y l IH]; simpl; intros r Hs H.
  - injection H as <-. repeat constructor.
  - rewrite lt_answers in H; simpl in H.
    apply StronglySorted_inv in Hs; destruct Hs as [Hl Hy].
    destruct (below y x) eqn:Hyx.
    + destruct (insert_sorted key lt x l) as [r'|e] eqn:Hins;
        simpl in H; [|discriminate].
      injection H as <-.
      constructor; [apply IH; auto|].
      apply (Permutation_Forall (insert_sorted_perm x l r' Hins)).
      constructor; [unfold ascending; apply below_asym; exact Hyx | exact Hy].
    + injection H as <-.
      constructor; [constructor; assumption|].
      constructor; [exact Hyx|].
      rewrite Forall_forall in *; intros z Hz.
      unfold ascending in *.
      apply below_cotrans with (y := y); auto.
Qed.

(** Within a class of elements none of which is below another, an
    insertion changes nothing: the new element stays in front. *)
Lemma insert_sorted_filter (P : A -> bool) x l r :
  (forall a b, P a = true -> P b = true -> below a b = false) ->
  insert_sorted key lt x l = Ret r ->
  filter P r = filter P (x :: l).
Proof.
  intros HP; revert r; induction l as [|y l IH]; intros r H; simpl in H.
  - injection H as <-. reflexivity.
  - rewrite lt_answers in H; simpl in H.
    destruct (below y x) eqn:Hyx.
    + destruct (insert_sorted key lt x l) as [r'|e]; simpl in H; [|discriminate].
      injection H as <-.
      specialize (IH r' eq_refl).
      simpl in *. rewrite IH.
      destruct (P y) eqn:Py, (P x) eqn:Px; try reflexivity.
      rewrite (HP y x Py Px) in Hyx; discriminate.
    + injection H as <-. reflexivity.
Qed.

Lemma list_sort_spec l :
  exists s,
    list_sort key lt l = Ret s /\
    Permutation l s /\
    StronglySorted (ascending below) s /\
    forall P : A -> bool,
      (forall a b, P a = true -> P b = true -> below a b = false) ->
      filter P s = filter P l.
Proof.
  induction l as [|x l (s & Hs & Hperm & Hsorted & Hstable)]; simpl.
  - exists []. repeat split; constructor.
  - rewrite Hs; simpl.
    destruct (insert_sorted_returns x s) as [r Hr].
    exists r. split; [exact Hr|]. split; [|split].
    + apply perm_trans with (x :: s); [apply perm_skip; exact Hperm|].
      apply insert_sorted_perm; exact Hr.
    + apply insert_sorted_ascending with (x := x) (l := s); assumption.
    + intros P HP.
      rewrite (insert_sorted_filter P x s r HP Hr).
      simpl. rewrite (Hstable P HP). reflexivity.
Qed.

Lemma StronglySorted_snoc (R : A -> A -> Prop) l x :
  StronglySorted R l -> Forall (fun y => R y x) l ->
  StronglySorted R (l ++ [x]).
Proof.
  induction 1 as [|a l Hl IH Ha]; intros Hx; simpl.
  - repeat constructor.
  - apply Forall_cons_iff in Hx; destruct Hx as [Hax Hx].
    constructor; [apply IH; exact Hx|].
    apply Forall_app; split; [exact Ha|]. constructor; [exact Hax|constructor].
Qed.

Lemma StronglySorted_rev (R : A -> A -> Prop) l :
  StronglySorted R l -> StronglySorted (fun a b => R b a) (rev l).
Proof.
  induction 1 as [|a l Hl IH Ha]; simpl; [constructor|].
  apply StronglySorted_snoc; [exact IH|].
  apply Forall_rev; exact Ha.
Qed.

(** [sorted(l, key=..., reverse=True)] returns the stable descending
    arrangement of [l]. *)
Lemma sorted_reverse_spec l :
  exists s,
    sorted key lt l true = Ret s /\
    Permutation l s /\
    StronglySorted (descending below) s /\
    forall P : A -> bool,
      (forall a b, P a = true -> P b = true -> below a b = false) ->
      filter P s = filter P l.
Proof.
  unfold sorted.
  destruct (list_sort_spec (rev l)) as (s & Hs & Hperm & Hsorted & Hstable).
  exists (rev s). rewrite Hs; simpl.
  split; [reflexivity|]. split; [|split].
  - apply perm_trans with (rev l); [apply Permutation_rev|].
    apply perm_trans with s; [exact Hperm | apply Permutation_rev].
  - apply (StronglySorted_rev (ascending below)); exact Hsorted.
  - intros P HP.
    rewrite filter_rev, (Hstable P HP), filter_rev, rev_involutive.
    reflexivity.
Qed.
End SortedFacts.

(** What needs no property of the comparison but that it answers: the
    sort returns, and returns a rearrangement of its argument. *)
Section SortedAlways.
Context {A K : Type} (key : A -> K) (lt : K -> K -> outcome bool).
Variable below : A -> A -> bool.
Hypothesis lt_answers : forall x y, lt (key x) (key y) = Ret (below x y).

Lemma list_sort_returns_perm l :
  exists s, list_sort key lt l = Ret s /\ Permutation l s.
Proof.
  induction l as [|x l (s & Hs & Hperm)]; simpl.
  - exists []. split; constructor.
  - rewrite Hs; simpl.
    destruct (insert_sorted_returns key lt below lt_answers x s) as [r Hr].
    exists r. split; [exact Hr|].
    apply perm_trans with (x :: s); [apply perm_skip; exact Hperm|].
    exact (insert_sorted_perm key lt below lt_answers x s r Hr).
Qed.

Lemma sorted_returns_perm l reverse :
  exists s, sorted key lt l reverse = Ret s /\ Permutation l s.
Proof.
  unfold sorted. destruct reverse; [|apply list_sort_returns_perm].
  destruct (list_sort_returns_perm (rev l)) as (s & Hs & Hperm).
  exists (rev s). rewrite Hs; simpl. split; [reflexivity|].
  apply perm_trans with (rev l); [apply Permutation_rev|].
  apply perm_trans with s; [exact Hperm | apply Permutation_rev].
Qed.
End SortedAlways.

(** The sort reads the comparison on the elements of its argument only. *)
Section SortedExt.
Context {A K : Type} (key : A -> K) (lt lt' : K -> K -> outcome bool).
Variables below below' : A -> A -> bool.
Hypothesis lt_answers : forall x y, lt (key x) (key y) = Ret (below x y).
Hypothesis lt'_answers : forall x y, lt' (key x) (key y) = Ret (below' x y).

Lemma insert_sorted_ext x l :
  (forall y, In y l -> below y x = below' y x) ->
  insert_sorted key lt x l = insert_sorted key lt' x l.
Proof.
  induction l as [|y l IH]; intros H; simpl; [reflexivity|].
  rewrite lt_answers, lt'_answers, (H y (or_introl eq_refl)); simpl.
  destruct (below' y x); [|reflexivity].
  rewrite IH; [reflexivity|]. intros z Hz; apply H; right; exact Hz.
Qed.

Lemma list_sort_ext l :
  (forall x y, In x l -> In y l -> below x y = below' x y) ->
  list_sort key lt l = list_sort key lt' l.
Proof.
  induction l as [|x l IH]; intros H; simpl; [reflexivity|].
  rewrite IH by (intros a b Ha Hb; apply H; right; assumption).
  destruct (list_sort_returns_perm key lt' below' lt'_answers l)
    as (s & Hs & Hperm).
  rewrite Hs; simpl. apply insert_sorted_ext.
  intros y Hy. apply H; [right|left; reflexivity].
  apply Permutation_in with s; [apply Permutation_sym; exact Hperm | exact Hy].
Qed.

Lemma sorted_ext l reverse :
  (forall x y, In x l -> In y l -> below x y = below' x y) ->
  sorted key lt l reverse = sorted key lt' l reverse.
Proof.
  intros H. unfold sorted. destruct reverse; [|apply list_sort_ext; exact H].
  rewrite list_sort_ext; [reflexivity|].
  intros x y Hx Hy. apply H; apply in_rev; assumption.
Qed.
End SortedExt.

Lemma StronglySorted_weaken_In {A : Type} (R R' : A -> A -> Prop) l :
  (forall a b, In a l -> In b l -> R a b -> R' a b) ->
  StronglySorted R l -> StronglySorted R' l.
Proof.
  intros HR Hs; induction Hs as [|a l Hl IH Ha]; constructor.
  - apply IH. intros x y Hx Hy. apply HR; right; assumption.
  - rewrite Forall_forall in *. intros b Hb.
    apply HR; [left; reflexivity | right; exact Hb | apply Ha; exact Hb].
Qed.

(** In a list in the order [R], any two entries are in the order [R] one
    way or the other. *)
Lemma StronglySorted_related {A : Type} (R : A -> A -> Prop) l a b :
  StronglySorted R l -> In a l -> In b l -> a = b \/ R a b \/ R b a.
Proof.
  induction 1 as [|c l Hl IH Hc]; intros Ha Hb; [destruct Ha|].
  rewrite Forall_forall in Hc.
  destruct Ha as [<-|Ha], Hb as [<-|Hb]; auto.
Qed.

(* ================================================================== *)
(** * The [tags] field (line 125) *)

Lemma Qlt_bool_true x y : Qlt_bool x y = true <-> x < y.
Proof.
  unfold Qlt_bool. rewrite negb_true_iff. split; intros H.
  - apply Qnot_le_lt. intros Hle. apply Qle_bool_iff in Hle. congruence.
  - destruct (Qle_bool y x) eqn:E; [|reflexivity].
    apply Qle_bool_iff in E. exfalso. exact (Qlt_not_le _ _ H E).
Qed.

Lemma Qlt_bool_false x y : Qlt_bool x y = false <-> y <= x.
Proof.
  unfold Qlt_bool. rewrite negb_false_iff. apply Qle_bool_iff.
Qed.

Lemma float_ltb_spec a b : float_ltb a b = true <-> float_lt a b.
Proof.
  destruct a, b; simpl; try apply Qlt_bool_true;
    split; intros H; try exact I; try reflexivity;
    try discriminate; try contradiction.
Qed.

Lemma float_leb_spec a b : float_leb a b = true <-> float_le a b.
Proof.
  destruct a, b; simpl; try apply Qle_bool_iff;
    split; intros H; try exact I; try reflexivity;
    try discriminate; try contradiction.
Qed.

Lemma float_eqb_not_ltb a b : float_eqb a b = true -> float_ltb a b = false.
Proof.
  destruct a, b; simpl; try reflexivity; try discriminate.
  intros E. apply Qeq_bool_iff in E.
  apply Qlt_bool_false. rewrite E. apply Qle_refl.
Qed.

(** Off NaN, [a < b] is false exactly when [b <= a]. *)
Lemma float_ltb_false a b :
  a <> NaN -> b <> NaN -> (float_ltb a b = false <-> float_le b a).
Proof.
  intros Ha Hb.
  destruct a, b; simpl; try congruence; try apply Qlt_bool_false;
    split; intros H; try exact I; try reflexivity;
    try discriminate; try contradiction.
Qed.

Lemma float_rank_ltb_agrees a b :
  a <> NaN -> b <> NaN -> float_rank_ltb a b = float_ltb a b.
Proof.
  intros Ha Hb. destruct a, b; try reflexivity; congruence.
Qed.

Lemma float_rank_ltb_asym a b :
  float_rank_ltb a b = true -> float_rank_ltb b a = false.
Proof.
  destruct a, b; simpl; try reflexivity; try discriminate.
  rewrite Qlt_bool_true, Qlt_bool_false. apply Qlt_le_weak.
Qed.

Lemma float_rank_ltb_cotrans a b c :
  float_rank_ltb b a = false -> float_rank_ltb c b = false ->
  float_rank_ltb c a = false.
Proof.
  destruct a, b, c; simpl; try reflexivity; try discriminate;
    try (intros; discriminate).
  rewrite !Qlt_bool_false. intros Hab Hbc. apply Qle_trans with q0; assumption.
Qed.

(** The comparison of two sort keys answers for every pair of entries,
    NaN included. *)
Lemma key_lt_answers a b : key_lt (sort_key a) (sort_key b) = Ret (tag_below a b).
Proof.
  unfold key_lt, sort_key, tag_below, conf_eq, conf_lt.
  destruct (tag_confidence a) as [x|], (tag_confidence b) as [y|]; simpl;
    try reflexivity.
  destruct (float_eqb x y) eqn:E; simpl; [|reflexivity].
  rewrite (float_eqb_not_ltb x y E). reflexivity.
Qed.

Lemma key_lt_total_answers a b :
  key_lt_total (sort_key a) (sort_key b) = Ret (tag_below_total a b).
Proof. reflexivity. Qed.

Lemma tag_below_agrees a b :
  not_nan a -> not_nan b -> tag_below a b = tag_below_total a b.
Proof.
  unfold not_nan, tag_below, tag_below_total.
  destruct (tag_confidence a) as [x|], (tag_confidence b) as [y|];
    try reflexivity.
  intros Ha Hb. symmetry. apply float_rank_ltb_agrees; congruence.
Qed.

Lemma tag_below_total_asym a b :
  tag_below_total a b = true -> tag_below_total b a = false.
Proof.
  unfold tag_below_total.
  destruct (tag_confidence a) as [x|], (tag_confidence b) as [y|];
    try reflexivity; try discriminate.
  apply float_rank_ltb_asym.
Qed.

Lemma tag_below_total_cotrans a b c :
  tag_below_total b a = false -> tag_below_total c b = false ->
  tag_below_total c a = false.
Proof.
  unfold tag_below_total.
  destruct (tag_confidence a) as [x|], (tag_confidence b) as [y|],
           (tag_confidence c) as [z|];
    try reflexivity; try discriminate.
  apply float_rank_ltb_cotrans.
Qed.

Lemma same_key_not_below k a b :
  same_key k a = true -> same_key k b = true -> tag_below_total a b = false.
Proof.
  unfold same_key, conf_eq, tag_below_total.
  destruct (tag_confidence a) as [x|], (tag_confidence b) as [y|], k as [q|];
    try reflexivity; try discriminate.
  destruct x, y, q; simpl; try reflexivity; try discriminate.
  intros Hx Hy. apply Qeq_bool_iff in Hx, Hy.
  apply Qlt_bool_false. rewrite Hx, Hy. apply Qle_refl.
Qed.

Lemma descending_tag_below a b :
  not_nan a -> not_nan b ->
  descending tag_below_total a b -> descending_nulls_last a b.
Proof.
  unfold not_nan, descending, descending_nulls_last, tag_below_total.
  destruct (tag_confidence a) as [x|], (tag_confidence b) as [y|];
    try (intros; exact I); try discriminate.
  intros Ha Hb H. apply float_ltb_false; try congruence.
  rewrite <- float_rank_ltb_agrees by congruence. exact H.
Qed.

(** Line 125 never raises and returns a rearrangement of its argument,
    whatever the confidences are. *)
Lemma sort_tags_returns tags_list :
  exists sorted_tags,
    sort_tags tags_list = Ret sorted_tags /\ Permutation tags_list sorted_tags.
Proof.
  exact (sorted_returns_perm sort_key key_lt tag_below key_lt_answers
                             tags_list true).
Qed.

(** On entries none of which has NaN for confidence, line 125 returns the
    stable descending arrangement. *)
Lemma sort_tags_spec tags_list :
  Forall not_nan tags_list ->
  exists sorted_tags,
    sort_tags tags_list = Ret sorted_tags /\
    Permutation tags_list sorted_tags /\
    StronglySorted descending_nulls_last sorted_tags /\
    forall k, filter (same_key k) sorted_tags = filter (same_key k) tags_list.
Proof.
  intros Hnan. rewrite Forall_forall in Hnan.
  destruct (sorted_reverse_spec sort_key key_lt_total tag_below_total
              key_lt_total_answers tag_below_total_asym
              tag_below_total_cotrans tags_list)
    as (s & Hs & Hperm & Hsorted & Hstable).
  exists s. split; [|split; [exact Hperm|split]].
  - unfold sort_tags. rewrite <- Hs.
    apply (sorted_ext sort_key key_lt key_lt_total tag_below tag_below_total
                      key_lt_answers key_lt_total_answers).
    intros x y Hx Hy. apply tag_below_agrees; apply Hnan; assumption.
  - eapply StronglySorted_weaken_In; [|exact Hsorted].
    intros a b Ha Hb. apply descending_tag_below; apply Hnan;
      (apply Permutation_in with s; [apply Permutation_sym; exact Hperm|]);
      assumption.
  - intros k. apply Hstable. apply same_key_not_below.
Qed.

(** The successful record: the sort never raises, so lines 95-127 always
    build the record. *)
Lemma success_record_returns source result :
  exists sorted_tags,
    sort_tags (normalize_tags (raw_tags_of (res_tags result))) = Ret sorted_tags /\
    exists cap,
      success_record source result =
      Ret (mk_record source true None (Some cap) sorted_tags (res_as_dict result)).
Proof.
  destruct (sort_tags_returns (normalize_tags (raw_tags_of (res_tags result))))
    as (s & Hs & _).
  exists s. split; [exact Hs|].
  unfold success_record. rewrite Hs. simpl. eauto.
Qed.

(** C2, for confidences that are numbers: for every list of normalised
    tag entries none of which has NaN for confidence, line 125 returns that list rearranged (a
    permutation) in descending order of confidence with the entries without
    confidence after all the others, and entries with equal keys (among
    them all entries without confidence) in their original order; this
    list is the [tags] field of the successful record. *)
Theorem C2_tags_sorted_descending_nulls_last_stable :
  forall tags_list : list tag,
  Forall not_nan tags_list ->
  exists sorted_tags,
    sort_tags tags_list = Ret sorted_tags /\
    Permutation tags_list sorted_tags /\
    StronglySorted descending_nulls_last sorted_tags /\
    (forall k, filter (same_key k) sorted_tags = filter (same_key k) tags_list) /\
    (forall source result,
        normalize_tags (raw_tags_of (res_tags result)) = tags_list ->
        exists r, success_record source result = Ret r /\
                  success r = true /\ tags r = sorted_tags).
Proof.
  intros tags_list Hnan.
  destruct (sort_tags_spec tags_list Hnan) as (s & Hs & Hperm & Hsorted & Hstable).
  exists s. repeat split; try assumption.
  intros src result Hnorm.
  destruct (success_record_returns src result) as (s' & Hs' & cap & Hrec).
  rewrite Hnorm, Hs in Hs'. injection Hs' as <-.
  eexists. split; [exact Hrec|]. split; reflexivity.
Qed.

(** C2 as the specification states it, for every list, is refuted by a
    confidence that is NaN: line 125 returns the entries a (0.1), x (NaN),
    b (0.9) as they came, which is not descending, and no arrangement of
    these three entries is, since NaN is neither at least nor at most any
    confidence. *)
Lemma C2_counterexample_nan_confidence :
  sort_tags nan_tags = Ret nan_tags /\
  (forall source,
      success_record source
        (mk_result None
           (Some (TagsList
                    [mk_raw_tag (Some "a") None (Some (Fin (1 # 10))) None;
                     mk_raw_tag (Some "x") None (Some NaN) None;
                     mk_raw_tag (Some "b") None (Some (Fin (9 # 10))) None]))
           None)
      = Ret (mk_record source true None (Some (mk_caption None None))
                       nan_tags None)) /\
  ~ StronglySorted descending_nulls_last nan_tags /\
  (forall arrangement,
      Permutation nan_tags arrangement ->
      ~ StronglySorted descending_nulls_last arrangement).
Proof.
  assert (Hno : forall arrangement,
             Permutation nan_tags arrangement ->
             ~ StronglySorted descending_nulls_last arrangement).
  { intros out Hperm Hsorted.
    assert (Ha : In (mk_tag "a" (Some (Fin (1 # 10)))) out)
      by (apply (Permutation_in _ Hperm); simpl; auto).
    assert (Hx : In (mk_tag "x" (Some NaN)) out)
      by (apply (Permutation_in _ Hperm); simpl; auto).
    destruct (StronglySorted_related _ _ _ _ Hsorted Ha Hx) as [H|[H|H]];
      [discriminate H | exact H | exact H]. }
  split; [reflexivity|]. split; [intros source; reflexivity|].
  split; [apply Hno; apply Permutation_refl | exact Hno].
Qed.

(** Three entries: 0.5, no confidence, 0.9. *)
Lemma C2_witness_three_tags :
  Forall not_nan [mk_tag "a" (Some (Fin (1 # 2))); mk_tag "n" None;
                  mk_tag "b" (Some (Fin (9 # 10)))] /\
  exists sorted_tags,
    sort_tags [mk_tag "a" (Some (Fin (1 # 2))); mk_tag "n" None;
               mk_tag "b" (Some (Fin (9 # 10)))] = Ret sorted_tags /\
    sorted_tags = [mk_tag "b" (Some (Fin (9 # 10)));
                   mk_tag "a" (Some (Fin (1 # 2))); mk_tag "n" None] /\
    StronglySorted descending_nulls_last sorted_tags.
Proof.
  assert (Hnan : Forall not_nan [mk_tag "a" (Some (Fin (1 # 2)));
                                 mk_tag "n" None;
                                 mk_tag "b" (Some (Fin (9 # 10)))]).
  { constructor; [discriminate|]. constructor; [discriminate|].
    constructor; [discriminate|]. constructor. }
  split; [exact Hnan|].
  destruct (C2_tags_sorted_descending_nulls_last_stable _ Hnan)
    as (s & Hs & _ & Hsorted & _).
  exists s. split; [exact Hs|]. split; [|exact Hsorted].
  vm_compute in Hs. injection Hs as <-. reflexivity.
Defined.

Example sort_tags_keeps_service_order_among_equals :
  sort_tags [mk_tag "a" (Some (Fin (1 # 2))); mk_tag "n1" None;
             mk_tag "b" (Some (Fin (9 # 10))); mk_tag "c" (Some (Fin (2 # 4)));
             mk_tag "n2" None]
  = Ret [mk_tag "b" (Some (Fin (9 # 10))); mk_tag "a" (Some (Fin (1 # 2)));
         mk_tag "c" (Some (Fin (2 # 4))); mk_tag "n1" None; mk_tag "n2" None].
Proof. reflexivity. Qed.

(* ================================================================== *)
(** * The retry controller *)

Lemma analyze_loop_unfold fuel w retries attempt source :
  analyze_loop (S fuel) w retries attempt source =
  match loop_body w retries attempt source with
  | (evs, Return r) => Some (r, evs)
  | (evs, Continue source') =>
      after evs (analyze_loop fuel w retries (S attempt) source')
  end.
Proof. reflexivity. Qed.

(** The [try] block makes calls only (it does not sleep), and ends either by
    an exception or with the record lines 95-127 build. *)
Lemma try_block_cases w i src s' calls res :
  try_block w i src = (s', calls, res) ->
  filter is_pacing calls = [] /\ filter is_backoff calls = [] /\
  ((exists e, res = Raise e) \/
   (exists result, res = success_record s' result)).
Proof.
  unfold try_block.
  destruct (is_url src).
  - destruct (fetch_image_url_with_headers w i src) as [u|e].
    + destruct (client_analyze_from_url w i u) as [result|e];
        intros H; injection H as <- <- <-; repeat split; eauto.
    + intros H; injection H as <- <- <-; repeat split; eauto.
  - destruct (open_rb w i src) as [f|e].
    + destruct (client_analyze w i f) as [result|e];
        intros H; injection H as <- <- <-; repeat split; eauto.
    + intros H; injection H as <- <- <-; repeat split; eauto.
Qed.

Lemma failure_record_is_failure s e : is_failure_record (failure_record s e).
Proof. unfold is_failure_record, failure_record; simpl. repeat split; eauto. Qed.

(** How a turn of the loop ends, by the way its [try] block ends. *)
Lemma loop_body_ret w retries attempt src s' calls r :
  try_block w attempt src = (s', calls, Ret r) ->
  loop_body w retries attempt src = (EvPacingSleep :: calls, Return r).
Proof. unfold loop_body. intros ->. reflexivity. Qed.

Lemma loop_body_raise w retries attempt src s' calls e :
  try_block w attempt src = (s', calls, Raise e) ->
  loop_body w retries attempt src =
  if negb (match exc_class_of e with OtherException => true | _ => false end)
     && (Z.of_nat attempt <? retries)%Z && retriable e
  then (EvPacingSleep :: calls ++ [EvBackoffSleep (attempt + 1)], Continue s')
  else (EvPacingSleep :: calls, Return (failure_record s' e)).
Proof.
  unfold loop_body. intros ->.
  destruct (exc_class_of e); simpl; try reflexivity.
Qed.

Lemma loop_body_return_shape w retries attempt src evs r :
  loop_body w retries attempt src = (evs, Return r) ->
  is_success_record r \/ is_failure_record r.
Proof.
  destruct (try_block w attempt src) as [[s' calls] res] eqn:Htry.
  destruct (try_block_cases _ _ _ _ _ _ Htry) as (_ & _ & [[e ->] | [result ->]]).
  - rewrite (loop_body_raise _ _ _ _ _ _ _ Htry).
    destruct (_ && _ && _); intros H; [discriminate|].
    injection H as _ <-. right. apply failure_record_is_failure.
  - destruct (success_record_returns s' result) as (st & _ & cap & Hrec).
    rewrite Hrec in Htry.
    rewrite (loop_body_ret _ _ _ _ _ _ _ Htry).
    intros H; injection H as _ <-. left.
    unfold is_success_record; simpl. repeat split; eauto.
Qed.

Lemma loop_body_continue_lt w retries attempt src evs s' :
  loop_body w retries attempt src = (evs, Continue s') ->
  (Z.of_nat attempt < retries)%Z.
Proof.
  destruct (try_block w attempt src) as [[s0 calls] res] eqn:Htry.
  destruct res as [r|e].
  - rewrite (loop_body_ret _ _ _ _ _ _ _ Htry). discriminate.
  - rewrite (loop_body_raise _ _ _ _ _ _ _ Htry).
    destruct (negb _); simpl; [|discriminate].
    destruct (Z.ltb_spec (Z.of_nat attempt) retries); simpl; [auto|discriminate].
Qed.

Lemma analyze_loop_shape fuel : forall w retries attempt src r trace,
  analyze_loop fuel w retries attempt src = Some (r, trace) ->
  is_success_record r \/ is_failure_record r.
Proof.
  induction fuel as [|fuel IH]; intros w retries attempt src r trace; [discriminate|].
  rewrite analyze_loop_unfold.
  destruct (loop_body w retries attempt src) as [evs [r0|s']] eqn:Hbody.
  - intros H; injection H as <- _. eapply loop_body_return_shape; eauto.
  - destruct (analyze_loop fuel w retries (S attempt) s') as [[r1 evs1]|] eqn:Hrest;
      simpl; [|discriminate].
    intros H; injection H as <- _. eapply IH; eauto.
Qed.

(** The loop stops: [retries - attempt + 1] turns are enough. *)
Lemma analyze_loop_terminates fuel : forall w retries attempt src,
  (Z.to_nat (retries - Z.of_nat attempt) < fuel)%nat ->
  exists r trace, analyze_loop fuel w retries attempt src = Some (r, trace).
Proof.
  induction fuel as [|fuel IH]; intros w retries attempt src Hfuel; [lia|].
  rewrite analyze_loop_unfold.
  destruct (loop_body w retries attempt src) as [evs [r0|s']] eqn:Hbody; [eauto|].
  apply loop_body_continue_lt in Hbody.
  destruct (IH w retries (S attempt) s') as (r & trace & ->); [lia|].
  simpl; eauto.
Qed.

(** More fuel than needed changes nothing. *)
Lemma analyze_loop_fuel_mono fuel : forall fuel' w retries attempt src res,
  analyze_loop fuel w retries attempt src = Some res ->
  (fuel <= fuel')%nat ->
  analyze_loop fuel' w retries attempt src = Some res.
Proof.
  induction fuel as [|fuel IH]; intros fuel' w retries attempt src res; [discriminate|].
  destruct fuel' as [|fuel']; [lia|].
  rewrite !analyze_loop_unfold.
  destruct (loop_body w retries attempt src) as [evs [r0|s']]; [auto|].
  destruct (analyze_loop fuel w retries (S attempt) s') as [res1|] eqn:Hrest;
    simpl; [|discriminate].
  intros H Hle. rewrite (IH fuel' _ _ _ _ _ Hrest); [exact H|lia].
Qed.

(** The events of one turn: the pacing sleep, the calls of the [try] block
    and, when the loop goes on, the backoff sleep. *)
Lemma loop_body_events w retries attempt src evs t :
  loop_body w retries attempt src = (evs, t) ->
  exists calls,
    filter is_pacing calls = [] /\ filter is_backoff calls = [] /\
    ((evs = EvPacingSleep :: calls /\ exists r, t = Return r) \/
     (evs = EvPacingSleep :: calls ++ [EvBackoffSleep (attempt + 1)] /\
      exists s', t = Continue s')).
Proof.
  destruct (try_block w attempt src) as [[s' calls] res] eqn:Htry.
  destruct (try_block_cases _ _ _ _ _ _ Htry) as (Hp & Hb & _).
  destruct res as [r|e].
  - rewrite (loop_body_ret _ _ _ _ _ _ _ Htry).
    intros H; injection H as <- <-. exists calls. eauto 8.
  - rewrite (loop_body_raise _ _ _ _ _ _ _ Htry).
    destruct (_ && _ && _); intros H; injection H as <- <-;
      exists calls; eauto 8.
Qed.

Lemma attempts_turn calls rest :
  filter is_pacing calls = [] ->
  attempts ((EvPacingSleep :: calls) ++ rest) = S (attempts rest).
Proof.
  intros Hc. unfold attempts. simpl. rewrite filter_app, Hc. reflexivity.
Qed.

Lemma attempts_turn_backoff calls n rest :
  filter is_pacing calls = [] ->
  attempts ((EvPacingSleep :: calls ++ [EvBackoffSleep n]) ++ rest)
  = S (attempts rest).
Proof.
  intros Hc. unfold attempts. simpl.
  rewrite !filter_app, Hc. reflexivity.
Qed.

(** At most [retries - attempt + 1] further attempts are made. *)
Lemma analyze_loop_attempts_bound fuel : forall w retries attempt src r trace,
  analyze_loop fuel w retries attempt src = Some (r, trace) ->
  (1 <= attempts trace <= Z.to_nat (retries - Z.of_nat attempt) + 1)%nat.
Proof.
  induction fuel as [|fuel IH]; intros w retries attempt src r trace; [discriminate|].
  rewrite analyze_loop_unfold.
  destruct (loop_body w retries attempt src) as [evs t] eqn:Hbody.
  destruct (loop_body_events _ _ _ _ _ _ Hbody)
    as (calls & Hp & _ & [[-> [r0 ->]] | [-> [s' ->]]]).
  - intros H; injection H as _ <-.
    rewrite <- (app_nil_r (EvPacingSleep :: calls)), attempts_turn by exact Hp.
    unfold attempts; simpl. lia.
  - apply loop_body_continue_lt in Hbody.
    destruct (analyze_loop fuel w retries (S attempt) s') as [[r1 evs1]|] eqn:Hrest;
      simpl; [|discriminate].
    intros H; injection H as _ <-.
    apply IH in Hrest.
    change (EvPacingSleep :: (calls ++ [EvBackoffSleep (attempt + 1)]) ++ evs1)
      with ((EvPacingSleep :: calls ++ [EvBackoffSleep (attempt + 1)]) ++ evs1).
    rewrite attempts_turn_backoff by exact Hp. lia.
Qed.

(** C1: a record returned by [analyze_one] is a success (error null, a
    caption object and the tag list present) or a failure (an error string,
    null caption, no tags, null raw), never a mix: [success == false],
    [error != null] and ([caption == null] and [tags == []]) are pairwise
    equivalent. *)
Theorem C1_record_is_success_or_failure :
  forall fuel w src retries r trace,
    analyze_one fuel w src retries = Some (r, trace) ->
    (success r = false <-> error r <> None) /\
    (error r <> None <-> (caption r = None /\ tags r = [])) /\
    (success r = false <-> (caption r = None /\ tags r = [])) /\
    (is_success_record r \/ is_failure_record r).
Proof.
  intros fuel w src retries r trace H.
  apply analyze_loop_shape in H.
  destruct H as [(Hs & He & cap & Hc) | (Hs & (msg & He) & Hc & Ht & Hr)].
  - assert (Hnone : ~ (caption r = None /\ tags r = []))
      by (rewrite Hc; intros [? _]; discriminate).
    assert (Hsucc : success r <> false) by (rewrite Hs; discriminate).
    assert (Herr : ~ error r <> None) by (rewrite He; congruence).
    split; [tauto|]. split; [tauto|]. split; [tauto|].
    left. unfold is_success_record; eauto.
  - assert (Herr : error r <> None) by (rewrite He; discriminate).
    split; [tauto|]. split; [tauto|]. split; [tauto|].
    right. unfold is_failure_record; eauto 6.
Qed.

(** The record of a working service for [cat.jpg]. *)
Lemma C1_witness_cat :
  analyze_one 1 service_up "cat.jpg" 4
  = Some (cat_record, [EvPacingSleep; EvOpen "cat.jpg"; EvAnalyze "cat.jpg"]) /\
  ((success cat_record = false <-> error cat_record <> None) /\
   (error cat_record <> None <->
    (caption cat_record = None /\ tags cat_record = [])) /\
   (success cat_record = false <->
    (caption cat_record = None /\ tags cat_record = [])) /\
   (is_success_record cat_record \/ is_failure_record cat_record)).
Proof.
  split; [vm_compute; reflexivity|].
  apply (C1_record_is_success_or_failure
           1 service_up "cat.jpg" 4 cat_record
           [EvPacingSleep; EvOpen "cat.jpg"; EvAnalyze "cat.jpg"]).
  vm_compute; reflexivity.
Defined.

(** C5: whatever the resolver and the analyze calls do (return, or raise
    any exception), [analyze_one] returns and does not raise: with more than
    [retries] turns of fuel the loop ends with a [record], which has the six
    fields [source], [success], [error], [caption], [tags] and [raw] and is
    a success or a failure; it makes at most [retries + 1] attempts, and
    more fuel gives the same record. *)
Theorem C5_analyze_one_always_returns_a_record :
  forall w src retries fuel,
    (Z.to_nat retries < fuel)%nat ->
    exists r trace,
      analyze_one fuel w src retries = Some (r, trace) /\
      (is_success_record r \/ is_failure_record r) /\
      (attempts trace <= Z.to_nat retries + 1)%nat /\
      forall fuel', (fuel <= fuel')%nat ->
                    analyze_one fuel' w src retries = Some (r, trace).
Proof.
  intros w src retries fuel Hfuel. unfold analyze_one.
  destruct (analyze_loop_terminates fuel w retries 0 src) as (r & trace & H).
  { rewrite Z.sub_0_r. exact Hfuel. }
  exists r, trace. split; [exact H|]. split; [|split].
  - eapply analyze_loop_shape; exact H.
  - apply analyze_loop_attempts_bound in H. rewrite Z.sub_0_r in H. lia.
  - intros fuel' Hle. eapply analyze_loop_fuel_mono; eauto.
Qed.

(** A file that does not exist. *)
Lemma C5_witness_missing_file :
  (Z.to_nat 4 < 5)%nat /\
  exists r trace,
    analyze_one 5 service_up "dog.jpg" 4 = Some (r, trace) /\
    (is_success_record r \/ is_failure_record r) /\
    (attempts trace <= Z.to_nat 4 + 1)%nat /\
    forall fuel', (5 <= fuel')%nat ->
                  analyze_one fuel' service_up "dog.jpg" 4 = Some (r, trace).
Proof.
  split; [vm_compute; reflexivity|].
  apply (C5_analyze_one_always_returns_a_record service_up "dog.jpg" 4 5).
  vm_compute; reflexivity.
Defined.

(** ** Which errors are retried *)

Lemma status_in_spec status l :
  status_in status l = true <-> exists s, status = Some s /\ In s l.
Proof.
  unfold status_in. destruct status as [s|].
  - rewrite existsb_exists. split.
    + intros (x & Hin & Heq). apply Z.eqb_eq in Heq. subst x. eauto.
    + intros (x & Heq & Hin). injection Heq as <-.
      exists s. split; [exact Hin | apply Z.eqb_refl].
  - split; [discriminate | intros (s & H & _); discriminate].
Qed.

(** The handlers of lines 129-138 retry exactly the errors the
    specification calls retriable. *)
Lemma handlers_retry_spec e :
  negb (match exc_class_of e with OtherException => true | _ => false end)
  && retriable e = true
  <-> spec_retriable e.
Proof.
  unfold spec_retriable, retriable, is_transport, retry_statuses.
  destruct (exc_class_of e) eqn:Hclass; simpl.
  - rewrite orb_false_r, status_in_spec. split.
    + intros H. left. split; [reflexivity | exact H].
    + intros [[_ H] | [H | H]]; [exact H | discriminate | discriminate].
  - rewrite orb_true_r. split; [intros _; right; left; reflexivity | reflexivity].
  - rewrite orb_true_r. split; [intros _; right; right; reflexivity | reflexivity].
  - split; [discriminate|].
    intros [[H _] | [H | H]]; discriminate.
Qed.

(** Line 130 finds a status other than 0 exactly when the error carries
    it. *)
Lemma status_of_carries e s :
  s <> 0%Z -> (status_of e = Some s <-> carries_status e s).
Proof.
  intros Hs. unfold status_of, carries_status, py_or, truthy_int.
  destruct (exc_status_code e) as [c|].
  - destruct (Z.eqb_spec c 0) as [->|Hc]; simpl.
    + split.
      * intros H. right. split; [right; reflexivity | exact H].
      * intros [H | [_ H]]; [congruence | exact H].
    + split.
      * intros H. left. exact H.
      * intros [H | [[H | H] _]]; [exact H | discriminate | congruence].
  - split.
    + intros H. right. split; [left; reflexivity | exact H].
    + intros [H | [_ H]]; [discriminate | exact H].
Qed.


Lemma loop_body_raise_spec w retries attempt src s' calls e :
  try_block w attempt src = (s', calls, Raise e) ->
  ((Z.of_nat attempt < retries)%Z /\ spec_retriable e ->
   loop_body w retries attempt src
   = (EvPacingSleep :: calls ++ [EvBackoffSleep (attempt + 1)], Continue s')) /\
  (~ ((Z.of_nat attempt < retries)%Z /\ spec_retriable e) ->
   loop_body w retries attempt src
   = (EvPacingSleep :: calls, Return (failure_record s' e))).
Proof.
  intros Htry. rewrite (loop_body_raise _ _ _ _ _ _ _ Htry).
  pose proof (handlers_retry_spec e) as Hspec.
  destruct (negb _) eqn:Hother; simpl in *.
  - destruct (Z.ltb_spec (Z.of_nat attempt) retries) as [Hlt|Hge]; simpl.
    + destruct (retriable e); split; intros H; try reflexivity.
      * exfalso. apply H. split; [exact Hlt | apply Hspec; reflexivity].
      * destruct H as [_ H]. apply Hspec in H. discriminate.
    + split; [intros [Hlt _]; lia | reflexivity].
  - split; [|reflexivity].
    intros [_ H]. apply Hspec in H. discriminate.
Qed.



(** ** A service that always answers 503 *)

Lemma source_at_S w src i :
  source_at w src (S i)
  = if is_url (source_at w src i) then
      match fetch_image_url_with_headers w i (source_at w src i) with
      | Ret resolved => resolved
      | Raise _ => source_at w src i
      end
    else source_at w src i.
Proof. reflexivity. Qed.

(** An attempt that reaches its analyze call ends with the exception this
    call raises. *)
Lemma try_block_always_raises (P : exn -> Prop) w src i :
  analyze_always_reached w -> analyze_always_raises P w ->
  exists calls e,
    try_block w i (source_at w src i)
    = (source_at w src (S i), calls, Raise e) /\
    analyze_raises w i (source_at w src i) e /\ P e /\
    filter is_pacing calls = [] /\
    length (filter is_analyze_call calls) = 1%nat.
Proof.
  intros [Hget Hopen] [Hurl Hfile].
  rewrite source_at_S. unfold try_block, analyze_raises.
  destruct (is_url (source_at w src i)) eqn:Hsrc.
  - destruct (Hget i _ Hsrc) as [u Hu]. rewrite Hu.
    destruct (Hurl i u) as (e & He & HP). rewrite He.
    do 2 eexists. split; [reflexivity|]. split; [eauto|]. repeat split; eauto.
  - destruct (Hopen i _ Hsrc) as [f Hf]. rewrite Hf.
    destruct (Hfile i f) as (e & He & HP). rewrite He.
    do 2 eexists. split; [reflexivity|]. split; [eauto|]. repeat split; eauto.
Qed.

Lemma service_error_503_retried e :
  service_error_503 e ->
  exc_class_of e = HttpResponseError /\ retriable e = true.
Proof.
  intros [Hclass Hs]. split; [exact Hclass|].
  apply status_of_carries in Hs; [|discriminate].
  unfold retriable. rewrite Hs. reflexivity.
Qed.

Lemma analyze_loop_always_503 fuel : forall w retries attempt src,
  analyze_always_reached w -> analyze_always_raises service_error_503 w ->
  (Z.of_nat attempt <= retries)%Z ->
  (Z.to_nat (retries - Z.of_nat attempt) < fuel)%nat ->
  exists e trace,
    analyze_loop fuel w retries attempt (source_at w src attempt)
    = Some (failure_record (source_at w src (S (Z.to_nat retries))) e, trace) /\
    analyze_raises w (Z.to_nat retries) (source_at w src (Z.to_nat retries)) e /\
    service_error_503 e /\
    attempts trace = (Z.to_nat (retries - Z.of_nat attempt) + 1)%nat /\
    analyze_calls trace = (Z.to_nat (retries - Z.of_nat attempt) + 1)%nat.
Proof.
  induction fuel as [|fuel IH]; intros w retries attempt src Hr H503 Hle Hfuel; [lia|].
  rewrite analyze_loop_unfold.
  destruct (try_block_always_raises service_error_503 w src attempt Hr H503)
    as (calls & e & Htry & Hraises & He & Hp & Hc).
  rewrite (loop_body_raise _ _ _ _ _ _ _ Htry).
  destruct (service_error_503_retried e He) as [Hclass Hretriable].
  rewrite Hretriable, andb_true_r, Hclass. simpl negb. cbn iota.
  destruct (Z.ltb_spec (Z.of_nat attempt) retries) as [Hlt|Hge];
    cbn [andb]; cbv beta iota.
  - destruct (IH w retries (S attempt) src Hr H503)
      as (e2 & trace & Hloop & Hraises2 & He2 & Ha & Hc2); [lia|lia|].
    rewrite Hloop. cbn [after].
    exists e2. eexists. split; [reflexivity|].
    split; [exact Hraises2|]. split; [exact He2|]. split.
    + change (EvPacingSleep :: (calls ++ [EvBackoffSleep (attempt + 1)]) ++ trace)
        with ((EvPacingSleep :: calls ++ [EvBackoffSleep (attempt + 1)]) ++ trace).
      rewrite attempts_turn_backoff by exact Hp. rewrite Ha. lia.
    + unfold analyze_calls in *. simpl.
      rewrite !filter_app, !length_app, Hc, Hc2. simpl. lia.
  - assert (Hatt : Z.to_nat retries = attempt) by lia.
    rewrite Hatt.
    exists e. eexists. split; [reflexivity|].
    split; [exact Hraises|]. split; [exact He|].
    assert (Hz : Z.to_nat (retries - Z.of_nat attempt) = 0%nat) by lia.
    rewrite Hz. split.
    + rewrite <- (app_nil_r (EvPacingSleep :: calls)), attempts_turn by exact Hp.
      reflexivity.
    + unfold analyze_calls. simpl. rewrite Hc. reflexivity.
Qed.

(** C3: when every attempt reaches its analyze call and every analyze call
    raises a service error with HTTP status 503, [analyze_one] makes exactly
    [retries + 1] attempts (5 with the default [retries = 4]), each with one
    analyze call, and returns the failure record of the error [e] that the
    analyze call of the last attempt raised: [success] is false, [caption]
    and [raw] are null, [tags] is empty, and [error] is
    ["<ErrorKind>: <message>"] with the class name and the message of
    [e]. *)
Theorem C3_always_503_makes_retries_plus_one_attempts :
  forall w src retries fuel,
    analyze_always_reached w ->
    analyze_always_raises service_error_503 w ->
    (0 <= retries)%Z ->
    (Z.to_nat retries < fuel)%nat ->
    exists r trace e,
      analyze_one fuel w src retries = Some (r, trace) /\
      Z.of_nat (attempts trace) = (retries + 1)%Z /\
      Z.of_nat (analyze_calls trace) = (retries + 1)%Z /\
      (retries = default_retries -> attempts trace = 5%nat) /\
      analyze_raises w (Z.to_nat retries)
                     (source_at w src (Z.to_nat retries)) e /\
      service_error_503 e /\
      is_failure_record r /\
      source r = source_at w src (S (Z.to_nat retries)) /\
      success r = false /\
      error r = Some (exc_type_name e ++ ": " ++ exc_str e)%string /\
      caption r = None /\ tags r = [] /\ raw r = None.
Proof.
  intros w src retries fuel Hr H503 Hpos Hfuel. unfold analyze_one.
  destruct (analyze_loop_always_503 fuel w retries 0 src Hr H503)
    as (e & trace & H & Hraises & He & Ha & Hc);
    [simpl; lia | rewrite Z.sub_0_r; lia |].
  rewrite Z.sub_0_r in Ha, Hc. change (source_at w src 0) with src in H.
  eexists. exists trace, e.
  split; [exact H|]. split; [lia|]. split; [lia|]. split.
  - intros ->. rewrite Ha. reflexivity.
  - split; [exact Hraises|]. split; [exact He|].
    split; [apply failure_record_is_failure|]. repeat split.
Qed.

Lemma service_down_reached : analyze_always_reached service_down.
Proof. split; intros; eexists; reflexivity. Defined.

Lemma service_down_503 : analyze_always_raises service_error_503 service_down.
Proof.
  split; intros; exists service_unavailable;
    (split; [reflexivity|]); (split; [reflexivity|]); left; reflexivity.
Defined.

(** Five attempts on a URL while the service is down: the record reports
    the 503 of the fifth. *)
Lemma C3_witness_service_down :
  exists r trace,
    analyze_one 5 service_down "https://example.com/cat.png" 4 = Some (r, trace) /\
    attempts trace = 5%nat /\
    analyze_calls trace = 5%nat /\
    client_analyze_from_url service_down 4 "https://cdn.example/cat.png"
    = Raise service_unavailable /\
    source r = "https://cdn.example/cat.png" /\
    success r = false /\
    error r = Some "HttpResponseError: Service Unavailable" /\
    caption r = None /\ tags r = [] /\ raw r = None.
Proof.
  destruct (C3_always_503_makes_retries_plus_one_attempts
              service_down "https://example.com/cat.png" 4 5
              service_down_reached service_down_503)
    as (r & trace & e & Hrun & Ha & Hc & _ & Hraises & _ & _ & Hsrc & Hok &
        Herr & Hrest); [lia | simpl; lia |].
  exists r, trace.
  assert (He : e = service_unavailable).
  { destruct Hraises as (resolved & _ & Hraise). simpl in Hraise.
    injection Hraise as <-. reflexivity. }
  subst e.
  split; [exact Hrun|]. split; [lia|]. split; [lia|].
  split; [reflexivity|]. split; [exact Hsrc|]. split; [exact Hok|].
  split; [exact Herr | exact Hrest].
Defined.

(** Two retriable failures, then success at the third attempt. *)
Example third_attempt_succeeds :
  analyze_one 5 service_flaky "cat.jpg" 4
  = Some (cat_record,
          [EvPacingSleep; EvOpen "cat.jpg"; EvAnalyze "cat.jpg"; EvBackoffSleep 1;
           EvPacingSleep; EvOpen "cat.jpg"; EvAnalyze "cat.jpg"; EvBackoffSleep 2;
           EvPacingSleep; EvOpen "cat.jpg"; EvAnalyze "cat.jpg"]).
Proof. reflexivity. Qed.

(* ================================================================== *)
(** * The URL resolver *)

Lemma prefix_spec s1 : forall s2,
  String.prefix s1 s2 = true <-> exists post, s2 = (s1 ++ post)%string.
Proof.
  induction s1 as [|a s1 IH]; intros s2.
  - split; [intros _; exists s2; reflexivity | intros _; destruct s2; reflexivity].
  - destruct s2 as [|b s2]; simpl.
    + split; [discriminate | intros [post H]; discriminate].
    + destruct (ascii_dec a b) as [->|Hneq].
      * rewrite IH. split; intros [post H]; exists post; congruence.
      * split; [discriminate | intros [post H]; congruence].
Qed.

Lemma contains_unfold sub s :
  contains sub s =
  if String.prefix sub s then true
  else match s with
       | EmptyString => false
       | String _ s' => contains sub s'
       end.
Proof. destruct s; reflexivity. Qed.

Lemma contains_spec sub s : contains sub s = true <-> substring_of sub s.
Proof.
  unfold substring_of. split.
  - induction s as [|c s IH]; rewrite contains_unfold;
      destruct (String.prefix sub _) eqn:Hp.
    + intros _. apply prefix_spec in Hp. destruct Hp as [post H].
      exists ""%string, post. exact H.
    + discriminate.
    + intros _. apply prefix_spec in Hp. destruct Hp as [post H].
      exists ""%string, post. exact H.
    + intros H. destruct (IH H) as (pre & post & ->).
      exists (String c pre), post. reflexivity.
  - intros (pre & post & ->).
    induction pre as [|c pre IH]; rewrite contains_unfold.
    + assert (Hp : String.prefix sub (sub ++ post) = true)
        by (apply prefix_spec; eauto).
      simpl append. rewrite Hp. reflexivity.
    + destruct (String.prefix sub _); [reflexivity | exact IH].
Qed.

Lemma fetch_image_url_with_headers_spec w i url resp :
  session_get w i url (request_headers w i url) = Ret resp ->
  fetch_image_url_with_headers w i url
  = if contains "image" (content_type_of resp) then Ret (resp_url resp)
    else Raise (not_an_image url).
Proof.
  unfold fetch_image_url_with_headers. intros ->. reflexivity.
Qed.



(** C10: when, in an attempt on an http(s) source, the resolver returns a
    URL and the analyze call on it raises an error that ends the call (not
    retriable, or no attempt left), the [source] of the failure record is
    the URL the resolver returned, not the string the attempt started
    with. *)
Theorem C10_failure_record_carries_resolved_url :
  forall w retries attempt src resolved e,
    is_url src = true ->
    fetch_image_url_with_headers w attempt src = Ret resolved ->
    client_analyze_from_url w attempt resolved = Raise e ->
    ~ ((Z.of_nat attempt < retries)%Z /\ spec_retriable e) ->
    forall fuel,
    exists r trace,
      analyze_loop (S fuel) w retries attempt src = Some (r, trace) /\
      is_failure_record r /\
      source r = resolved /\
      (attempt = 0%nat -> analyze_one (S fuel) w src retries = Some (r, trace)).
Proof.
  intros w retries attempt src resolved e Hurl Hfetch Hraise Hstop fuel.
  assert (Htry : try_block w attempt src
                 = (resolved,
                    [EvGet src (request_headers w attempt src);
                     EvAnalyzeFromUrl resolved],
                    Raise e)).
  { unfold try_block. rewrite Hurl, Hfetch, Hraise. reflexivity. }
  destruct (loop_body_raise_spec _ retries _ _ _ _ _ Htry) as [_ Hbody].
  specialize (Hbody Hstop).
  exists (failure_record resolved e). eexists.
  split; [rewrite analyze_loop_unfold, Hbody; reflexivity|].
  split; [apply failure_record_is_failure|]. split; [reflexivity|].
  intros ->. unfold analyze_one. rewrite analyze_loop_unfold, Hbody. reflexivity.
Qed.

(** A link redirected to a CDN, then rejected by the service with status
    400: the record names the CDN URL. *)
Lemma C10_witness_redirect_then_rejected :
  is_url "http://example.com/cat" = true /\
  fetch_image_url_with_headers service_rejects 0 "http://example.com/cat"
  = Ret "https://cdn.example/cat.png" /\
  client_analyze_from_url service_rejects 0 "https://cdn.example/cat.png"
  = Raise bad_request /\
  exists r trace,
    analyze_loop 1 service_rejects 4 0 "http://example.com/cat" = Some (r, trace) /\
    is_failure_record r /\
    source r = "https://cdn.example/cat.png" /\
    (0%nat = 0%nat ->
     analyze_one 1 service_rejects "http://example.com/cat" 4 = Some (r, trace)).
Proof.
  split; [vm_compute; reflexivity|]. split; [vm_compute; reflexivity|].
  split; [vm_compute; reflexivity|].
  apply (C10_failure_record_carries_resolved_url
           service_rejects 4 0 "http://example.com/cat"
           "https://cdn.example/cat.png" bad_request).
  - vm_compute; reflexivity.
  - vm_compute; reflexivity.
  - vm_compute; reflexivity.
  - intros [_ H]. apply handlers_retry_spec in H. vm_compute in H. discriminate.
Defined.

Example redirected_source_is_rewritten :
  exists trace,
    analyze_one 1 service_rejects "http://example.com/cat" 4
    = Some (failure_record "https://cdn.example/cat.png" bad_request, trace) /\
    source (failure_record "https://cdn.example/cat.png" bad_request)
    <> "http://example.com/cat"%string.
Proof. eexists. split; [reflexivity | discriminate]. Qed.

(* ================================================================== *)
(** * The presenter *)

Lemma passes_not_at_least threshold t :
  passes threshold t = negb (not_at_least_b threshold t).
Proof.
  unfold passes, not_at_least_b.
  destruct (tag_confidence t); [rewrite negb_involutive|]; reflexivity.
Qed.

Lemma not_at_least_b_spec threshold t :
  not_at_least_b threshold t = true <-> not_at_least threshold t.
Proof.
  unfold not_at_least_b, not_at_least.
  destruct (tag_confidence t) as [c|].
  - rewrite negb_true_iff, <- not_true_iff_false, float_leb_spec. split.
    + intros H. exists c. split; [reflexivity | exact H].
    + intros (c' & Heq & H). injection Heq as <-. exact H.
  - split; [discriminate | intros (c & H & _); discriminate].
Qed.

Lemma below_threshold_b_spec threshold t :
  below_threshold_b threshold t = true <-> below_threshold threshold t.
Proof.
  unfold below_threshold_b, below_threshold.
  destruct (tag_confidence t) as [c|].
  - rewrite float_ltb_spec. split.
    + intros H. exists c. split; [reflexivity | exact H].
    + intros (c' & Heq & H). injection Heq as <-. exact H.
  - split; [discriminate | intros (c & H & _); discriminate].
Qed.

(** Between numbers, not at least the threshold is below the threshold. *)
Lemma not_at_least_below threshold t :
  threshold <> NaN -> not_nan t ->
  (not_at_least threshold t <-> below_threshold threshold t).
Proof.
  intros Hth Hnan.
  rewrite <- not_at_least_b_spec, <- below_threshold_b_spec.
  unfold not_at_least_b, below_threshold_b, not_nan in *.
  destruct (tag_confidence t) as [c|]; [|reflexivity].
  assert (Hc : c <> NaN) by congruence.
  rewrite negb_true_iff.
  destruct threshold as [x| | |], c as [y| | |]; simpl; try congruence;
    try reflexivity; try (split; discriminate);
    try (split; reflexivity).
  unfold Qlt_bool. rewrite negb_true_iff. reflexivity.
Qed.

Lemma slice_to_nonneg {A : Type} (l : list A) k :
  (0 <= k)%Z -> slice_to l k = firstn (Z.to_nat k) l.
Proof.
  intros H. unfold slice_to.
  destruct (Z.leb_spec 0 k); [reflexivity | lia].
Qed.

(** C7, with the comparison the code makes: for a successful record, a
    threshold and a count [top_k], the presenter prints one line per tag
    for the first [top_k] tags of the list left after dropping exactly the
    tags whose confidence is present and not at least the threshold, in the
    order of the record; a tag without confidence is never dropped.  When
    neither the threshold nor the confidence is NaN, the tags dropped are
    the ones below the threshold.  For A (0.9), B (0.2), C (none) and
    threshold 0.5 it prints A, then C, and not B. *)
Theorem C7_presenter_shows_first_top_k_above_threshold :
  forall entry top_k threshold,
    success entry = true ->
    (0 <= top_k)%Z ->
    print_result entry top_k (Some threshold)
    = (newline ++ "== " ++ source entry)%string
        :: caption_lines entry
        ++ map tag_line
             (firstn (Z.to_nat top_k)
                (filter (fun t => negb (not_at_least_b threshold t))
                        (tags entry))) /\
    (forall t,
        In t (filter (fun t => negb (not_at_least_b threshold t)) (tags entry))
        <-> In t (tags entry) /\ ~ not_at_least threshold t) /\
    (forall t, In t (tags entry) -> tag_confidence t = None ->
               In t (filter (fun t => negb (not_at_least_b threshold t))
                            (tags entry))) /\
    (threshold <> NaN ->
     forall t, not_nan t ->
               (not_at_least threshold t <-> below_threshold threshold t)) /\
    print_result abc_record 5 (Some (Fin (1 # 2)))
    = [(newline ++ "== photo.jpg")%string; "- A (0.90)"%string; "- C"%string].
Proof.
  intros entry top_k threshold Hs Hk.
  split; [|split; [|split; [|split]]].
  - unfold print_result, shown_tags. rewrite Hs.
    rewrite slice_to_nonneg by exact Hk.
    rewrite (filter_ext (passes threshold)
               (fun t => negb (not_at_least_b threshold t))
               (passes_not_at_least threshold)).
    reflexivity.
  - intros t. rewrite filter_In, negb_true_iff.
    rewrite <- not_at_least_b_spec.
    destruct (not_at_least_b threshold t); intuition congruence.
  - intros t Hin Hnone. apply filter_In. split; [exact Hin|].
    unfold not_at_least_b. rewrite Hnone. reflexivity.
  - intros Hth t Hnan. apply not_at_least_below; assumption.
  - vm_compute. reflexivity.
Qed.

(** The record with tags A, B, C at threshold 0.5: B, which is below the
    threshold, is the one tag dropped. *)
Lemma C7_witness_abc :
  print_result abc_record 5 (Some (Fin (1 # 2)))
  = (newline ++ "== " ++ source abc_record)%string
      :: caption_lines abc_record
      ++ map tag_line [mk_tag "A" (Some (Fin (9 # 10))); mk_tag "C" None] /\
  (forall t, In t (tags abc_record) ->
             (below_threshold (Fin (1 # 2)) t
              <-> t = mk_tag "B" (Some (Fin (2 # 10))))).
Proof.
  destruct (C7_presenter_shows_first_top_k_above_threshold
              abc_record 5 (Fin (1 # 2)))
    as (Hprint & _ & _ & Hbelow & _);
    [reflexivity | vm_compute; discriminate |].
  split; [exact Hprint|].
  intros t Hin.
  assert (Hnan : not_nan t).
  { simpl in Hin. destruct Hin as [<-|[<-|[<-|[]]]]; discriminate. }
  rewrite <- (Hbelow ltac:(discriminate) t Hnan).
  rewrite <- not_at_least_b_spec.
  simpl in Hin. destruct Hin as [<-|[<-|[<-|[]]]]; vm_compute;
    split; intros H; try reflexivity; try discriminate H.
Defined.

(** C7 as the specification states it is refuted by NaN, which is not at
    least and not below anything: with the threshold NaN the presenter
    drops A and B, neither of which is below the threshold, and at
    threshold 0.5 it drops the tag x whose confidence is NaN. *)
Lemma C7_counterexample_nan :
  (print_result abc_record 5 (Some NaN)
   = [(newline ++ "== photo.jpg")%string; "- C"%string] /\
   (forall t, ~ below_threshold NaN t) /\
   print_result abc_record 5 (Some NaN)
   <> (newline ++ "== " ++ source abc_record)%string
        :: caption_lines abc_record
        ++ map tag_line
             (firstn (Z.to_nat 5)
                (filter (fun t => negb (below_threshold_b NaN t))
                        (tags abc_record)))) /\
  (print_result nan_record 5 (Some (Fin (1 # 2)))
   = [(newline ++ "== photo.jpg")%string; "- b (0.90)"%string] /\
   ~ below_threshold (Fin (1 # 2)) (mk_tag "x" (Some NaN)) /\
   print_result nan_record 5 (Some (Fin (1 # 2)))
   <> (newline ++ "== " ++ source nan_record)%string
        :: caption_lines nan_record
        ++ map tag_line
             (firstn (Z.to_nat 5)
                (filter (fun t => negb (below_threshold_b (Fin (1 # 2)) t))
                        (tags nan_record)))).
Proof.
  split; (split; [reflexivity|]); (split; [|vm_compute; discriminate]).
  - intros t (c & _ & H). destruct c; exact H.
  - intros (c & Hc & H). injection Hc as <-. exact H.
Qed.

(* ================================================================== *)
(** * The CSV summary *)

Lemma csv_header_length top_k :
  length (csv_header top_k) = (3 + Z.to_nat top_k)%nat.
Proof.
  unfold csv_header. rewrite length_app, length_map, length_seq. reflexivity.
Qed.

(** The row of a failed record is as wide as the header. *)
Lemma csv_row_failure_length e top_k :
  success e = false ->
  length (csv_row e top_k) = length (csv_header top_k).
Proof.
  intros Hs. rewrite csv_header_length. unfold csv_row. rewrite Hs. simpl.
  rewrite repeat_length. reflexivity.
Qed.

(** The row of a successful record holds one column per tag it has, up to
    [top_k]: nothing fills the columns of the tags it does not have. *)
Lemma csv_row_success_length e top_k :
  success e = true ->
  (0 <= top_k)%Z ->
  length (csv_row e top_k) = (3 + Nat.min (Z.to_nat top_k) (length (tags e)))%nat.
Proof.
  intros Hs Hk. unfold csv_row. rewrite Hs. cbv zeta. simpl negb. cbv iota.
  rewrite (slice_to_nonneg (tags e)) by exact Hk.
  rewrite slice_to_nonneg by lia.
  rewrite Nat2Z.id, csv_header_length, length_firstn.
  simpl length. rewrite length_map, length_firstn. lia.
Qed.

(** C8 fails on the code: the record [analyze_one] returns for an image
    with one tag gets, with [top_k = 5], a row of 4 columns under a header
    of 8, while the row of a failed record has all 8. *)
Theorem C8_successful_row_is_not_padded :
  analyze_one 1 service_up "cat.jpg" 4
  = Some (cat_record, [EvPacingSleep; EvOpen "cat.jpg"; EvAnalyze "cat.jpg"]) /\
  csv_row cat_record 5
  = [CellStr "cat.jpg"; CellStr "a cat on a sofa"; CellNum (Fin (87 # 100));
     CellStr "cat"] /\
  length (csv_row cat_record 5) = 4%nat /\
  length (csv_header 5) = 8%nat /\
  length (csv_row (failure_record "dog.jpg" file_not_found) 5) = 8%nat.
Proof. repeat split; vm_compute; reflexivity. Qed.

(* ================================================================== *)
(** * Confidence 0.0 in tag normalisation *)

(** C9 as stated fails: a raw tag reported with confidence 0.0 and score
    0.0 has no truthy score, and yet its normalised confidence is 0.0, not
    null: neither "null if no truthy score exists" nor "never 0.0" holds. *)
Lemma C9_counterexample_zero_score :
  normalize_tag sky_zero_zero = Some (mk_tag "sky" (Some (Fin 0))) /\
  ~ (forall t entry,
        rt_confidence t = Some (Fin 0) ->
        normalize_tag t = Some entry ->
        (forall s, rt_score t = Some s -> truthy_float s = false) ->
        tag_confidence entry = None) /\
  ~ (forall t entry,
        rt_confidence t = Some (Fin 0) ->
        normalize_tag t = Some entry ->
        forall z, tag_confidence entry = Some (Fin z) -> ~ z == 0).
Proof.
  split; [reflexivity|]. split.
  - intros H.
    specialize (H sky_zero_zero (mk_tag "sky" (Some (Fin 0))) eq_refl eq_refl).
    simpl in H. discriminate H.
    intros s Hs. injection Hs as <-. reflexivity.
  - intros H.
    apply (H sky_zero_zero (mk_tag "sky" (Some (Fin 0))) eq_refl eq_refl 0 eq_refl).
    reflexivity.
Qed.

(** C9, amended: a raw tag whose [confidence] attribute is 0.0 does not
    keep it; the normalised confidence is what the [score] attribute
    holds: null when there is no score, the score otherwise, also when the
    score is itself 0.0.  So the normalised confidence is 0.0 exactly when
    the score is 0.0. *)
Theorem C9_zero_confidence_falls_through_to_score :
  forall t c entry,
    rt_confidence t = Some (Fin c) ->
    c == 0 ->
    normalize_tag t = Some entry ->
    tag_confidence entry = rt_score t /\
    (rt_score t = None -> tag_confidence entry = None) /\
    ((exists z, tag_confidence entry = Some (Fin z) /\ z == 0)
     <-> (exists s, rt_score t = Some (Fin s) /\ s == 0)).
Proof.
  intros t c entry Hc Hzero. unfold normalize_tag.
  rewrite Hc. unfold py_or at 2. unfold truthy_float, truthy_num.
  rewrite (Qeq_eq_bool _ _ Hzero). simpl.
  destruct (py_or truthy_str (rt_name t) (rt_text t)); [|discriminate].
  intros H; injection H as <-. simpl.
  split; [reflexivity|]. split; [auto|]. reflexivity.
Qed.

(** Confidence 0.0 and score 0.7: the score is taken. *)
Lemma C9_witness_score_taken :
  rt_confidence sky_zero_score = Some (Fin 0) /\
  0 == 0 /\
  normalize_tag sky_zero_score = Some (mk_tag "sky" (Some (Fin (7 # 10)))) /\
  (tag_confidence (mk_tag "sky" (Some (Fin (7 # 10)))) = rt_score sky_zero_score /\
   (rt_score sky_zero_score = None ->
    tag_confidence (mk_tag "sky" (Some (Fin (7 # 10)))) = None) /\
   ((exists z, tag_confidence (mk_tag "sky" (Some (Fin (7 # 10)))) = Some (Fin z)
               /\ z == 0)
    <-> (exists s, rt_score sky_zero_score = Some (Fin s) /\ s == 0))).
Proof.
  split; [reflexivity|]. split; [reflexivity|]. split; [reflexivity|].
  apply (C9_zero_confidence_falls_through_to_score
           sky_zero_score 0 (mk_tag "sky" (Some (Fin (7 # 10))))).
  - reflexivity.
  - reflexivity.
  - reflexivity.
Defined.

(* ================================================================== *)
(** * File names: [sanitize_filename] *)

Lemma str_take_length n : forall s,
  String.length (str_take n s) = Nat.min n (String.length s).
Proof.
  induction n as [|n IH]; intros [|c s]; simpl; try reflexivity.
  rewrite IH. reflexivity.
Qed.

Lemma str_take_all n : forall s,
  (String.length s <= n)%nat -> str_take n s = s.
Proof.
  induction n as [|n IH]; intros [|c s]; simpl; intros H;
    try reflexivity; try lia.
  rewrite IH by lia. reflexivity.
Qed.

Lemma str_take_app n : forall s t,
  (n <= String.length s)%nat -> str_take n (s ++ t) = str_take n s.
Proof.
  induction n as [|n IH]; intros s t H.
  - destruct s, t; reflexivity.
  - destruct s as [|c s]; simpl in *; [lia|].
    rewrite IH by lia. reflexivity.
Qed.

Lemma str_take_chars n : forall s c,
  In c (chars (str_take n s)) -> In c (chars s).
Proof.
  induction n as [|n IH]; intros [|a s] c; simpl; try tauto.
  intros [H|H]; [left; exact H | right; apply IH; exact H].
Qed.

Lemma sub_unsafe_length s : String.length (sub_unsafe s) = String.length s.
Proof. induction s as [|c s IH]; simpl; congruence. Qed.

Lemma sub_unsafe_app s t : sub_unsafe (s ++ t) = (sub_unsafe s ++ sub_unsafe t)%string.
Proof. induction s as [|c s IH]; simpl; congruence. Qed.

Lemma sub_unsafe_safe s c : In c (chars (sub_unsafe s)) -> is_unsafe c = false.
Proof.
  induction s as [|a s IH]; simpl; [tauto|].
  intros [H|H]; [|apply IH; exact H].
  subst c. destruct (is_unsafe a) eqn:E; [reflexivity | exact E].
Qed.

Lemma sub_unsafe_id s :
  sub_unsafe s = s <-> (forall c, In c (chars s) -> is_unsafe c = false).
Proof.
  induction s as [|a s IH]; simpl.
  - split; [intros _ c [] | reflexivity].
  - split.
    + intros H. injection H as Ha Hs. intros c [<-|Hc].
      * destruct (is_unsafe a) eqn:E; [|reflexivity].
        rewrite <- Ha in E. discriminate E.
      * apply IH; assumption.
    + intros H. rewrite (H a (or_introl eq_refl)).
      f_equal. apply IH. intros c Hc. apply H. right. exact Hc.
Qed.

(** X1: the file name is the first 100 characters' worth of the source:
    as long as the source, and never longer than 100. *)
Theorem X1_sanitize_filename_length :
  forall url,
    String.length (sanitize_filename url) = Nat.min (String.length url) 100 /\
    (String.length (sanitize_filename url) <= 100)%nat.
Proof.
  intros url. unfold sanitize_filename.
  rewrite str_take_length, sub_unsafe_length. split; lia.
Qed.

(** X2: no character of the file name is one of the nine characters line
    54 replaces; in particular it holds no slash and no backslash. *)
Theorem X2_sanitize_filename_has_no_unsafe_character :
  forall url c,
    In c (chars (sanitize_filename url)) ->
    is_unsafe c = false /\ c <> ascii_of_nat 47 /\ c <> ascii_of_nat 92.
Proof.
  intros url c H. unfold sanitize_filename in H.
  apply str_take_chars, sub_unsafe_safe in H.
  split; [exact H|]. split; intros ->; discriminate H.
Qed.

Lemma sanitize_filename_id s :
  sanitize_filename s = s <->
  ((String.length s <= 100)%nat /\
   forall c, In c (chars s) -> is_unsafe c = false).
Proof.
  unfold sanitize_filename. split.
  - intros H.
    assert (Hlen : (String.length s <= 100)%nat).
    { rewrite <- H at 1. rewrite str_take_length. lia. }
    split; [exact Hlen|].
    rewrite str_take_all in H by (rewrite sub_unsafe_length; exact Hlen).
    apply sub_unsafe_id. exact H.
  - intros [Hlen Hsafe].
    rewrite str_take_all by (rewrite sub_unsafe_length; exact Hlen).
    apply sub_unsafe_id. exact Hsafe.
Qed.

(** X3: the sources that are their own file name are those of at most 100
    characters without unsafe character; so sanitising twice is sanitising
    once. *)
Theorem X3_sanitize_filename_fixed_points :
  forall s,
    (sanitize_filename s = s <->
     ((String.length s <= 100)%nat /\
      forall c, In c (chars s) -> is_unsafe c = false)) /\
    sanitize_filename (sanitize_filename s) = sanitize_filename s.
Proof.
  intros s. split; [apply sanitize_filename_id|].
  apply sanitize_filename_id. split.
  - unfold sanitize_filename. rewrite str_take_length. lia.
  - intros c H. unfold sanitize_filename in H.
    apply str_take_chars, sub_unsafe_safe in H. exact H.
Qed.

(** X4: what follows the first 100 characters of a source does not reach
    the file name: two sources with the same first 100 characters get the
    same file. *)
Theorem X4_sanitize_filename_ignores_tail :
  forall s t1 t2,
    (100 <= String.length s)%nat ->
    sanitize_filename (s ++ t1) = sanitize_filename (s ++ t2).
Proof.
  intros s t1 t2 H. unfold sanitize_filename.
  rewrite !sub_unsafe_app.
  rewrite !str_take_app by (rewrite sub_unsafe_length; exact H).
  reflexivity.
Qed.

(* ================================================================== *)
(** * Text: [strip] and [splitlines] *)

Lemma lstrip_cases s :
  lstrip s = EmptyString \/
  exists c r, lstrip s = String c r /\ is_space c = false.
Proof.
  induction s as [|c s IH]; simpl; [left; reflexivity|].
  destruct (is_space c) eqn:E; [exact IH|].
  right. exists c, s. split; [reflexivity | exact E].
Qed.

Lemma lstrip_chars s c : In c (chars (lstrip s)) -> In c (chars s).
Proof.
  induction s as [|a s IH]; simpl; [tauto|].
  destruct (is_space a); [intros H; right; apply IH; exact H | tauto].
Qed.

Lemma lstrip_empty s :
  lstrip s = EmptyString <-> (forall c, In c (chars s) -> is_space c = true).
Proof.
  induction s as [|a s IH]; simpl.
  - split; [intros _ c [] | reflexivity].
  - destruct (is_space a) eqn:E.
    + rewrite IH. split.
      * intros H c [<-|Hc]; [exact E | apply H; exact Hc].
      * intros H c Hc. apply H. right. exact Hc.
    + split; [discriminate|].
      intros H. rewrite (H a (or_introl eq_refl)) in E. discriminate E.
Qed.

Lemma rstrip_cons c s :
  rstrip (String c s) =
  match rstrip s with
  | EmptyString => if is_space c then EmptyString else String c EmptyString
  | r => String c r
  end.
Proof. reflexivity. Qed.

(** A string that starts with a character that is no white space keeps it
    under [rstrip]. *)
Lemma rstrip_keeps_head c s :
  is_space c = false -> exists r, rstrip (String c s) = String c r.
Proof.
  intros E. rewrite rstrip_cons, E. destruct (rstrip s); eauto.
Qed.

Lemma rstrip_chars s : forall c, In c (chars (rstrip s)) -> In c (chars s).
Proof.
  induction s as [|a s IH]; intros c; [simpl; tauto|].
  rewrite rstrip_cons. destruct (rstrip s) as [|b r] eqn:E.
  - destruct (is_space a); simpl; [tauto|]. intros [H|[]]. left. exact H.
  - simpl. intros [H|H]; [left; exact H|]. right. apply IH. exact H.
Qed.

Lemma rstrip_empty s :
  rstrip s = EmptyString <-> (forall c, In c (chars s) -> is_space c = true).
Proof.
  induction s as [|a s IH]; [simpl; split; [intros _ c [] | reflexivity]|].
  rewrite rstrip_cons. destruct (rstrip s) as [|b r] eqn:E.
  - destruct (is_space a) eqn:Ea.
    + split; [|reflexivity]. intros _ c [<-|Hc]; [exact Ea|].
      apply (proj1 IH eq_refl). exact Hc.
    + split; [discriminate|].
      intros H. rewrite (H a (or_introl eq_refl)) in Ea. discriminate Ea.
  - split; [discriminate|].
    intros H. assert (Hs : String b r = EmptyString); [|discriminate Hs].
    apply IH. intros c Hc. apply H. right. exact Hc.
Qed.

Lemma rstrip_idempotent s : rstrip (rstrip s) = rstrip s.
Proof.
  induction s as [|a s IH]; [reflexivity|].
  rewrite rstrip_cons. destruct (rstrip s) as [|b r] eqn:E.
  - destruct (is_space a) eqn:Ea; [reflexivity|].
    rewrite rstrip_cons. simpl. rewrite Ea. reflexivity.
  - rewrite rstrip_cons, IH. reflexivity.
Qed.

(** The last character of a string left by [rstrip] is no white space. *)
Lemma rstrip_last_not_space s : forall d,
  rstrip s <> EmptyString -> is_space (last (chars (rstrip s)) d) = false.
Proof.
  induction s as [|a s IH]; intros d; [intros H; exfalso; apply H; reflexivity|].
  rewrite rstrip_cons. destruct (rstrip s) as [|b r] eqn:E.
  - destruct (is_space a) eqn:Ea; [intros H; exfalso; apply H; reflexivity|].
    intros _. simpl. exact Ea.
  - intros _. specialize (IH d). change (chars (String a (String b r)))
      with (a :: chars (String b r)).
    change (chars (String b r)) with (b :: chars r) in *.
    simpl in *. apply IH. discriminate.
Qed.

Lemma strip_cases s :
  strip s = EmptyString \/
  exists c r, strip s = String c r /\ is_space c = false.
Proof.
  unfold strip. destruct (lstrip_cases s) as [->|(c & r & -> & E)].
  - left. reflexivity.
  - right. destruct (rstrip_keeps_head c r E) as [r' ->]. eauto.
Qed.

Lemma strip_idempotent s : strip (strip s) = strip s.
Proof.
  unfold strip at 2 3. destruct (lstrip_cases s) as [->|(c & r & -> & E)];
    [reflexivity|].
  destruct (rstrip_keeps_head c r E) as [r' Hr]. unfold strip.
  rewrite Hr. simpl lstrip. rewrite E, <- Hr. apply rstrip_idempotent.
Qed.

Lemma strip_chars s c : In c (chars (strip s)) -> In c (chars s).
Proof. intros H. apply lstrip_chars, rstrip_chars. exact H. Qed.

Lemma strip_empty s :
  strip s = EmptyString <-> (forall c, In c (chars s) -> is_space c = true).
Proof.
  unfold strip. rewrite rstrip_empty. split.
  - intros H. apply lstrip_empty.
    destruct (lstrip_cases s) as [E|(c & r & E & Hc)]; [exact E|].
    rewrite E in H. rewrite (H c (or_introl eq_refl)) in Hc. discriminate Hc.
  - intros H c Hc. apply H. apply lstrip_chars. exact Hc.
Qed.

Lemma CR_is_boundary c : Ascii.eqb c CR = true -> is_line_boundary c = true.
Proof. intros H. apply Ascii.eqb_eq in H. subst c. reflexivity. Qed.

Lemma splitlines_cons c s :
  is_line_boundary c = false ->
  splitlines (String c s) = cons_char c (splitlines s).
Proof.
  intros H. simpl. destruct (Ascii.eqb c CR) eqn:E.
  - apply CR_is_boundary in E. congruence.
  - rewrite H. reflexivity.
Qed.

Lemma splitlines_LF s : splitlines (String LF s) = EmptyString :: splitlines s.
Proof. reflexivity. Qed.

(** No line holds a line break. *)
Lemma splitlines_lines_unbroken n : forall s,
  (String.length s <= n)%nat ->
  forall l, In l (splitlines s) ->
  forall c, In c (chars l) -> is_line_boundary c = false.
Proof.
  induction n as [|n IH]; intros [|a s] Hn l Hl c Hc; simpl in Hn;
    try (simpl in Hl; tauto); try lia.
  destruct (is_line_boundary a) eqn:Ea.
  - assert (Hl' : l = EmptyString \/ exists s', (String.length s' <= n)%nat /\
                                                In l (splitlines s')).
    { simpl in Hl. rewrite Ea in Hl.
      destruct (Ascii.eqb a CR).
      - destruct s as [|b s].
        + destruct Hl as [<-|[]]. left. reflexivity.
        + destruct (Ascii.eqb b LF); destruct Hl as [<-|Hl];
            try (left; reflexivity); right.
          * exists s. split; [simpl in Hn; lia | exact Hl].
          * exists (String b s). split; [lia | exact Hl].
      - destruct Hl as [<-|Hl]; [left; reflexivity|].
        right. exists s. split; [lia | exact Hl]. }
    destruct Hl' as [->|(s' & Hs' & Hl')]; [destruct Hc|].
    eapply IH; eauto.
  - rewrite splitlines_cons in Hl by exact Ea.
    destruct (splitlines s) as [|l0 ls] eqn:Es; simpl in Hl.
    + destruct Hl as [<-|[]]. destruct Hc as [<-|[]]. exact Ea.
    + destruct Hl as [<-|Hl].
      * destruct Hc as [<-|Hc]; [exact Ea|].
        apply (IH s ltac:(lia) l0); [rewrite Es; left; reflexivity | exact Hc].
      * apply (IH s ltac:(lia) l); [rewrite Es; right; exact Hl | exact Hc].
Qed.

(** A stretch without line break, then a line feed: one line. *)
Lemma splitlines_line u : forall rest,
  (forall c, In c (chars u) -> is_line_boundary c = false) ->
  splitlines (u ++ String LF rest) = u :: splitlines rest.
Proof.
  induction u as [|a u IH]; intros rest H; [reflexivity|].
  change (String a u ++ String LF rest)%string
    with (String a (u ++ String LF rest)).
  rewrite splitlines_cons by (apply H; left; reflexivity).
  rewrite IH by (intros c Hc; apply H; right; exact Hc).
  reflexivity.
Qed.

Lemma splitlines_last_line u :
  u <> EmptyString ->
  (forall c, In c (chars u) -> is_line_boundary c = false) ->
  splitlines u = [u].
Proof.
  induction u as [|a u IH]; intros Hne H; [congruence|].
  rewrite splitlines_cons by (apply H; left; reflexivity).
  destruct u as [|b u]; [reflexivity|].
  rewrite IH; [reflexivity | discriminate |].
  intros c Hc. apply H. right. exact Hc.
Qed.

(* ================================================================== *)
(** * URL lists: [iter_urls_from_file] *)

Lemma url_lines_In lines u :
  In u (url_lines lines) <->
  exists line, In line lines /\ u = strip line /\
               u <> EmptyString /\ String.prefix "#" u = false.
Proof.
  induction lines as [|l lines IH]; simpl.
  - split; [intros [] | intros (line & [] & _)].
  - assert (Hkeep : negb (truthy_str (strip l)) || String.prefix "#" (strip l) = false
                    <-> strip l <> EmptyString /\ String.prefix "#" (strip l) = false).
    { unfold truthy_str. rewrite negb_involutive, orb_false_iff.
      destruct (String.eqb_spec (strip l) ""); split; intros [H1 H2];
        try discriminate; try congruence; auto. }
    destruct (negb (truthy_str (strip l)) || String.prefix "#" (strip l)) eqn:E.
    + rewrite IH. split.
      * intros (line & Hin & H). exists line. split; [right; exact Hin | exact H].
      * intros (line & [<-|Hin] & Hu & Hne & Hp); [|eauto].
        subst u. discriminate (proj2 Hkeep (conj Hne Hp)).
    + destruct (proj1 Hkeep eq_refl) as [Hne Hp]. simpl. rewrite IH. split.
      * intros [<-|(line & Hin & H)].
        -- exists l. repeat split; auto.
        -- exists line. split; [right; exact Hin | exact H].
      * intros (line & [<-|Hin] & Hu & H); [left; auto | right; eauto].
Qed.

(** X5: every URL read from a file is a line of the file without the white
    space around it; it is not empty, does not start with [#], starts and
    ends with a character that is no white space, and holds no line
    break. *)
Theorem X5_urls_are_stripped_lines :
  forall text u,
    In u (urls_of_text text) ->
    (exists line, In line (splitlines text) /\ u = strip line) /\
    u <> EmptyString /\
    String.prefix "#" u = false /\
    strip u = u /\
    (exists c r, u = String c r /\ is_space c = false) /\
    is_space (last (chars u) LF) = false /\
    (forall c, In c (chars u) -> is_line_boundary c = false).
Proof.
  intros text u H. unfold urls_of_text in H.
  apply url_lines_In in H. destruct H as (line & Hin & Hu & Hne & Hp).
  split; [eauto|]. split; [exact Hne|]. split; [exact Hp|].
  split; [subst u; apply strip_idempotent|].
  split; [|split].
  - destruct (strip_cases line) as [E|(c & r & E & Hc)]; [congruence|].
    exists c, r. split; [congruence | exact Hc].
  - subst u. unfold strip in *. apply rstrip_last_not_space. exact Hne.
  - intros c Hc. subst u. apply strip_chars in Hc.
    eapply splitlines_lines_unbroken; eauto.
Qed.

Lemma url_lines_nil lines :
  url_lines lines = [] <-> (forall line, In line lines -> skipped_line line).
Proof.
  unfold skipped_line. induction lines as [|l lines IH]; simpl.
  - split; [intros _ line [] | reflexivity].
  - unfold truthy_str. rewrite negb_involutive.
    destruct (String.eqb_spec (strip l) "") as [E|E]; simpl.
    + rewrite IH. split.
      * intros H line [<-|Hin]; [left; exact E | apply H; exact Hin].
      * intros H line Hin. apply H. right. exact Hin.
    + destruct (String.prefix "#" (strip l)) eqn:Hp.
      * rewrite IH. split.
        -- intros H line [<-|Hin]; [right; exact Hp | apply H; exact Hin].
        -- intros H line Hin. apply H. right. exact Hin.
      * split; [discriminate|].
        intros H. destruct (H l (or_introl eq_refl)); congruence.
Qed.

(** X6: a text yields no URL exactly when each of its lines is blank or,
    after the white space in front of it, starts with [#]. *)
Theorem X6_no_url_iff_only_blank_and_comment_lines :
  forall text,
    urls_of_text text = [] <->
    (forall line, In line (splitlines text) -> skipped_line line).
Proof. intros text. apply url_lines_nil. Qed.

Lemma url_lines_clean urls :
  Forall clean_url urls -> url_lines urls = urls.
Proof.
  induction 1 as [|u urls (Hne & Hs & Hp & _) _ IH]; [reflexivity|].
  simpl. rewrite Hs, Hp. unfold truthy_str.
  destruct (String.eqb_spec u ""); [congruence|].
  simpl. rewrite IH. reflexivity.
Qed.

Lemma str_append_assoc (a b c : string) :
  ((a ++ b) ++ c = a ++ (b ++ c))%string.
Proof. induction a as [|x a IH]; simpl; congruence. Qed.

Lemma splitlines_join_lines urls : forall u,
  Forall clean_url (u :: urls) ->
  splitlines (join_lines (u :: urls)) = u :: urls /\
  splitlines (join_lines (u :: urls) ++ String LF EmptyString) = u :: urls.
Proof.
  unfold join_lines.
  induction urls as [|v urls IH]; intros u Hall;
    apply Forall_cons_iff in Hall; destruct Hall as [(Hne & _ & _ & Hb) Hall].
  - simpl String.concat.
    split; [apply splitlines_last_line; assumption|].
    rewrite splitlines_line by exact Hb. reflexivity.
  - destruct (IH v Hall) as [IH1 IH2].
    change (String.concat (String LF "") (u :: v :: urls))
      with (u ++ String LF "" ++ String.concat (String LF "") (v :: urls))%string.
    split.
    + change (u ++ String LF "" ++ String.concat (String LF "") (v :: urls))%string
        with (u ++ String LF (String.concat (String LF "") (v :: urls)))%string.
      rewrite splitlines_line by exact Hb. rewrite IH1. reflexivity.
    + replace ((u ++ String LF "" ++ String.concat (String LF "") (v :: urls))
                 ++ String LF "")%string
        with (u ++ String LF (String.concat (String LF "") (v :: urls)
                                ++ String LF ""))%string.
      * rewrite splitlines_line by exact Hb. rewrite IH2. reflexivity.
      * symmetry.
        apply (str_append_assoc u
                 (String LF (String.concat (String LF "") (v :: urls)))
                 (String LF "")).
Qed.

(** X7: a list of URLs written one per line is read back as it is, with or
    without a line feed after the last one, provided each URL can stand on
    a line: not empty, no white space around it, no [#] in front, no line
    break in it. *)
Theorem X7_urls_round_trip :
  forall urls,
    Forall clean_url urls ->
    urls_of_text (join_lines urls) = urls /\
    urls_of_text (join_lines urls ++ String LF EmptyString) = urls.
Proof.
  intros urls H. unfold urls_of_text.
  destruct urls as [|u urls]; [split; reflexivity|].
  destruct (splitlines_join_lines urls u H) as [-> ->].
  split; apply url_lines_clean; exact H.
Qed.

(* ================================================================== *)
(** * Paths: the order of [sorted] and [suffix] *)

Section SeqOrder.
Context {A : Type} (eqb ltb : A -> A -> bool).
Hypothesis elements : strict_total eqb ltb.

Lemma list_eqb_eq l1 : forall l2, list_eqb eqb l1 l2 = true <-> l1 = l2.
Proof.
  induction l1 as [|x l1 IH]; intros [|y l2]; simpl;
    try (split; [reflexivity || discriminate | reflexivity || discriminate]).
  rewrite andb_true_iff, IH, (st_eqb _ _ elements).
  split; [intros [-> ->]; reflexivity | intros H; injection H; auto].
Qed.

Lemma eqb_refl_of x : eqb x x = true.
Proof. apply (st_eqb _ _ elements). reflexivity. Qed.

Lemma seq_lt_irrefl l : seq_lt eqb ltb l l = false.
Proof.
  induction l as [|x l IH]; simpl; [reflexivity|].
  rewrite eqb_refl_of. exact IH.
Qed.

Lemma seq_lt_trans l1 : forall l2 l3,
  seq_lt eqb ltb l1 l2 = true -> seq_lt eqb ltb l2 l3 = true ->
  seq_lt eqb ltb l1 l3 = true.
Proof.
  induction l1 as [|x l1 IH]; intros [|y l2] [|z l3]; simpl;
    try discriminate; try reflexivity.
  destruct (eqb x y) eqn:Exy, (eqb y z) eqn:Eyz.
  - apply (st_eqb _ _ elements) in Exy, Eyz. subst y z.
    rewrite eqb_refl_of. apply IH.
  - apply (st_eqb _ _ elements) in Exy. subst y. rewrite Eyz. auto.
  - apply (st_eqb _ _ elements) in Eyz. subst z. rewrite Exy. auto.
  - intros Hxy Hyz.
    pose proof (st_trans _ _ elements _ _ _ Hxy Hyz) as Hxz.
    destruct (eqb x z) eqn:Exz; [|exact Hxz].
    apply (st_eqb _ _ elements) in Exz. subst z.
    rewrite (st_irrefl _ _ elements) in Hxz. discriminate Hxz.
Qed.

Lemma seq_lt_total l1 : forall l2,
  seq_lt eqb ltb l1 l2 = false -> seq_lt eqb ltb l2 l1 = false -> l1 = l2.
Proof.
  induction l1 as [|x l1 IH]; intros [|y l2]; simpl;
    try discriminate; try reflexivity.
  destruct (eqb x y) eqn:Exy.
  - apply (st_eqb _ _ elements) in Exy. subst y. rewrite eqb_refl_of.
    intros H1 H2. f_equal. apply IH; assumption.
  - destruct (eqb y x) eqn:Eyx.
    + apply (st_eqb _ _ elements) in Eyx. subst y.
      rewrite eqb_refl_of in Exy. discriminate Exy.
    + intros H1 H2. rewrite (st_total _ _ elements x y H1 H2) in Exy.
      rewrite eqb_refl_of in Exy. discriminate Exy.
Qed.

Lemma seq_lt_strict_total : strict_total (list_eqb eqb) (seq_lt eqb ltb).
Proof.
  constructor.
  - intros x y. apply list_eqb_eq.
  - apply seq_lt_irrefl.
  - apply seq_lt_trans.
  - apply seq_lt_total.
Qed.

Lemma strict_total_asym x y : ltb x y = true -> ltb y x = false.
Proof.
  intros H. destruct (ltb y x) eqn:E; [|reflexivity].
  rewrite <- (st_irrefl _ _ elements x).
  symmetry. exact (st_trans _ _ elements _ _ _ H E).
Qed.

Lemma strict_total_cotrans x y z :
  ltb y x = false -> ltb z y = false -> ltb z x = false.
Proof.
  intros Hyx Hzy. destruct (ltb z x) eqn:Hzx; [|reflexivity].
  destruct (ltb y z) eqn:Hyz.
  - rewrite (st_trans _ _ elements _ _ _ Hyz Hzx) in Hyx. discriminate Hyx.
  - rewrite (st_total _ _ elements y z Hyz Hzy) in Hyx. congruence.
Qed.
End SeqOrder.

Lemma char_order : strict_total Ascii.eqb char_lt.
Proof.
  unfold char_lt. constructor.
  - apply Ascii.eqb_eq.
  - intros x. apply Nat.ltb_irrefl.
  - intros x y z. rewrite !Nat.ltb_lt. lia.
  - intros x y. rewrite !Nat.ltb_ge. intros H1 H2.
    rewrite <- (ascii_nat_embedding x), <- (ascii_nat_embedding y).
    f_equal. lia.
Qed.

Lemma str_order : strict_total String.eqb str_lt.
Proof.
  pose proof (seq_lt_strict_total _ _ char_order) as H.
  unfold str_lt. constructor.
  - apply String.eqb_eq.
  - intros x. apply (st_irrefl _ _ H).
  - intros x y z. apply (st_trans _ _ H).
  - intros x y H1 H2.
    rewrite <- (string_of_list_ascii_of_string x),
            <- (string_of_list_ascii_of_string y).
    f_equal. apply (st_total _ _ H); assumption.
Qed.

Lemma path_order : strict_total (list_eqb String.eqb) path_lt.
Proof. apply seq_lt_strict_total. exact str_order. Qed.

Lemma Permutation_filter_compat {A : Type} (f : A -> bool) l l' :
  Permutation l l' -> Permutation (filter f l) (filter f l').
Proof.
  induction 1 as [| x l l' _ IH | x y l | l l' l'' _ IH1 _ IH2]; simpl.
  - constructor.
  - destruct (f x); [apply perm_skip|]; exact IH.
  - destruct (f x), (f y); try apply Permutation_refl. apply perm_swap.
  - eapply perm_trans; eassumption.
Qed.

Lemma StronglySorted_filter {A : Type} (R : A -> A -> Prop) (f : A -> bool) l :
  StronglySorted R l -> StronglySorted R (filter f l).
Proof.
  induction 1 as [|a l Hl IH Ha]; simpl; [constructor|].
  destruct (f a); [|exact IH].
  constructor; [exact IH|].
  rewrite Forall_forall in *. intros x Hx.
  apply filter_In in Hx. apply Ha. tauto.
Qed.

(** ** [suffix] *)

Lemma from_last_dot_none s :
  (forall c, In c (chars s) -> c <> dot) -> from_last_dot s = None.
Proof.
  induction s as [|a s IH]; intros H; simpl; [reflexivity|].
  rewrite IH by (intros c Hc; apply H; right; exact Hc).
  destruct (Ascii.eqb_spec a dot) as [E|E]; [|reflexivity].
  exfalso. apply (H a); [left; reflexivity | exact E].
Qed.

Lemma from_last_dot_app s x :
  (forall c, In c (chars x) -> c <> dot) ->
  from_last_dot (s ++ String dot x) = Some (String dot x).
Proof.
  intros H. induction s as [|a s IH]; simpl.
  - rewrite (from_last_dot_none x H). reflexivity.
  - rewrite IH. reflexivity.
Qed.

(** The suffix of a name [stem.x], where [stem] is not empty and [x] is not
    empty and has no dot, is [.x]. *)
Lemma suffix_of_stem_ext p stem x :
  name_of p = (stem ++ String dot x)%string ->
  stem <> EmptyString -> x <> EmptyString ->
  (forall c, In c (chars x) -> c <> dot) ->
  suffix p = String dot x.
Proof.
  intros Hname Hstem Hx Hdots. unfold suffix. rewrite Hname.
  destruct stem as [|a stem]; [congruence|]. simpl.
  rewrite (from_last_dot_app stem x Hdots).
  destruct x as [|b x]; [congruence | reflexivity].
Qed.

Lemma lower_char_dot c : lower_char c = dot -> c = dot.
Proof.
  destruct c as [[] [] [] [] [] [] [] []]; vm_compute; intros H;
    try reflexivity; discriminate H.
Qed.

Lemma lower_char_not_dot c k : lower_char c = k -> k <> dot -> c <> dot.
Proof. intros H Hk ->. apply Hk. rewrite <- H. reflexivity. Qed.

(** A string that is one of [exts] but for the case of its letters is a dot
    followed by letters. *)
Lemma ext_shape e :
  In (lower e) exts ->
  exists x, e = String dot x /\ x <> EmptyString /\
            forall c, In c (chars x) -> c <> dot.
Proof.
  intros H. simpl in H.
  repeat (destruct H as [H|H]); try contradiction;
    repeat (destruct e as [|? e]; simpl in H; try discriminate H);
    repeat match goal with
           | H : String _ _ = String _ _ |- _ => injection H as ? ?
           end;
    match goal with
    | Hd : _ = lower_char ?a |- exists x, String ?a ?r = _ /\ _ =>
        exists r; split;
        [ f_equal; apply lower_char_dot; symmetry; exact Hd
        | split; [discriminate|] ]
    end;
    intros c Hc; simpl in Hc;
    repeat (destruct Hc as [<-|Hc];
            [ eapply lower_char_not_dot; [symmetry; eassumption | discriminate] |]);
    destruct Hc.
Qed.

(* ================================================================== *)
(** * Directories: [iter_images_from_dir] *)

Lemma sorted_paths l :
  exists s,
    sorted (fun p : path => p) (fun p q => Ret (path_lt p q)) l false = Ret s /\
    Permutation l s /\
    StronglySorted (ascending path_lt) s.
Proof.
  destruct (list_sort_spec (fun p : path => p) (fun p q => Ret (path_lt p q))
              path_lt (fun _ _ => eq_refl)
              (strict_total_asym _ _ path_order)
              (strict_total_cotrans _ _ path_order) l)
    as (s & Hs & Hperm & Hsorted & _).
  exists s. split; [exact Hs|]. split; assumption.
Qed.

Lemma iter_images_from_dir_spec fs directory listing :
  fs_rglob fs directory = Ret listing ->
  exists s,
    Permutation listing s /\
    StronglySorted (ascending path_lt) s /\
    iter_images_from_dir fs directory = yield_images fs s.
Proof.
  intros Hls. unfold iter_images_from_dir. rewrite Hls. cbn [bind].
  destruct (sorted_paths listing) as (s & -> & Hperm & Hsorted).
  exists s. split; [exact Hperm|]. split; [exact Hsorted | reflexivity].
Qed.

Lemma has_suffix_spec p :
  existsb (String.eqb (lower (suffix p))) exts = true
  <-> In (lower (suffix p)) exts.
Proof.
  rewrite existsb_exists. split.
  - intros (x & Hin & Heq). apply String.eqb_eq in Heq. congruence.
  - intros Hin. exists (lower (suffix p)).
    split; [exact Hin | apply String.eqb_refl].
Qed.

Lemma is_image_spec fs p :
  is_image fs p = Ret true <->
  In (lower (suffix p)) exts /\ fs_is_file fs p = Ret true.
Proof.
  unfold is_image. rewrite <- has_suffix_spec.
  destruct (existsb _ exts); split.
  - intros H. split; [reflexivity | exact H].
  - intros [_ H]. exact H.
  - discriminate.
  - intros [H _]. discriminate.
Qed.

Lemma is_image_raise fs p e :
  is_image fs p = Raise e <->
  In (lower (suffix p)) exts /\ fs_is_file fs p = Raise e.
Proof.
  unfold is_image. rewrite <- has_suffix_spec.
  destruct (existsb _ exts); split.
  - intros H. split; [reflexivity | exact H].
  - intros [_ H]. exact H.
  - discriminate.
  - intros [H _]. discriminate.
Qed.

Lemma image_file_spec fs p :
  image_file fs p = true <->
  In (lower (suffix p)) exts /\ fs_is_file fs p = Ret true.
Proof.
  rewrite <- is_image_spec. unfold image_file.
  destruct (is_image fs p) as [[|]|e]; split; congruence.
Qed.

(** The loop returns when no test raises, and then it returns the paths
    that pass the test, in the order of the listing; else it raises what
    the test of some path raised. *)
Lemma yield_images_cases fs l :
  (yield_images fs l = Ret (filter (image_file fs) l) /\
   forall p, In p l -> exists b, is_image fs p = Ret b)
  \/ exists e p, yield_images fs l = Raise e /\ In p l /\
                 is_image fs p = Raise e.
Proof.
  induction l as [|p l IH]; simpl.
  - left. split; [reflexivity | intros p []].
  - unfold image_file at 1.
    destruct (is_image fs p) as [b|e] eqn:Hp; simpl.
    + destruct IH as [[-> Hall] | (e & q & -> & Hq & He)]; simpl.
      * left. split; [reflexivity|].
        intros q [<-|Hq]; [eauto | apply Hall; exact Hq].
      * right. exists e, q. split; [reflexivity|]. split; [right|]; assumption.
    + right. exists e, p. split; [reflexivity|]. split; [left; reflexivity|].
      exact Hp.
Qed.

Lemma is_file_answers_spec fs l :
  is_file_answers fs l <-> forall p, In p l -> exists b, is_image fs p = Ret b.
Proof.
  unfold is_file_answers. split; intros H p Hin.
  - unfold is_image.
    destruct (existsb _ exts) eqn:E; [|eauto].
    apply H; [exact Hin | apply has_suffix_spec; exact E].
  - intros He. destruct (H p Hin) as [b Hb]. exists b.
    unfold is_image in Hb. apply has_suffix_spec in He. rewrite He in Hb.
    exact Hb.
Qed.

Lemma is_file_answers_perm fs l l' :
  Permutation l l' -> is_file_answers fs l -> is_file_answers fs l'.
Proof.
  intros Hperm H p Hin. apply H.
  apply Permutation_in with l'; [apply Permutation_sym; exact Hperm | exact Hin].
Qed.

(** X8: the enumeration of a directory raises what the listing raises;
    once the directory is listed, it returns exactly when [is_file] raises
    for no listed path whose suffix, in lower case, is one of the eight
    extensions, and else raises what [is_file] raised for such a path.
    What it returns are exactly the listed paths with such a suffix that
    are files, each as often as it is listed, in ascending order of paths
    (compared component by component). *)
Theorem X8_iter_images_yields_sorted_image_files :
  forall fs directory,
    (forall e, fs_rglob fs directory = Raise e ->
               iter_images_from_dir fs directory = Raise e) /\
    (forall listing,
        fs_rglob fs directory = Ret listing ->
        ((exists out, iter_images_from_dir fs directory = Ret out)
         <-> is_file_answers fs listing) /\
        (forall e,
            iter_images_from_dir fs directory = Raise e ->
            exists p, In p listing /\ In (lower (suffix p)) exts /\
                      fs_is_file fs p = Raise e) /\
        (forall out,
            iter_images_from_dir fs directory = Ret out ->
            Permutation (filter (image_file fs) listing) out /\
            StronglySorted (fun p q => path_lt q p = false) out /\
            (forall p, In p out <->
                       In p listing /\
                       fs_is_file fs p = Ret true /\
                       In (lower (suffix p)) exts))).
Proof.
  intros fs directory. split.
  - intros e He. unfold iter_images_from_dir. rewrite He. reflexivity.
  - intros listing Hls.
    destruct (iter_images_from_dir_spec fs directory listing Hls)
      as (s & Hperm & Hsorted & ->).
    destruct (yield_images_cases fs s)
      as [[Hret Hall] | (e0 & q & Hraise & Hq & He0)].
    + rewrite Hret. split; [|split].
      * split; [|eauto]. intros _.
        apply (is_file_answers_perm fs s listing (Permutation_sym Hperm)).
        apply is_file_answers_spec. exact Hall.
      * discriminate.
      * intros out Hout. injection Hout as <-.
        assert (Hp : Permutation (filter (image_file fs) listing)
                                 (filter (image_file fs) s))
          by (apply Permutation_filter_compat; exact Hperm).
        split; [exact Hp|]. split; [apply StronglySorted_filter; exact Hsorted|].
        intros p. rewrite filter_In, image_file_spec. split.
        -- intros (Hin & He & Hf). split; [|tauto].
           apply Permutation_in with s; [apply Permutation_sym|]; assumption.
        -- intros (Hin & Hf & He). split; [|tauto].
           apply Permutation_in with listing; assumption.
    + rewrite Hraise. apply is_image_raise in He0. destruct He0 as [He0 Hf].
      assert (Hql : In q listing)
        by (apply Permutation_in with s; [apply Permutation_sym|]; assumption).
      split; [|split].
      * split; [intros [out H]; discriminate H|].
        intros Hans. destruct (Hans q Hql He0) as [b Hb]. congruence.
      * intros e He. injection He as <-. exists q. tauto.
      * discriminate.
Qed.

(** The image in the folder that may not be searched stops the
    enumeration. *)
Example locked_folder_stops_the_enumeration :
  iter_images_from_dir locked_photos "d" = Raise permission_denied /\
  main 5 locked_photos (fun _ => service_up) (args_dir "d")
  = Some (Uncaught permission_denied, []).
Proof. split; reflexivity. Qed.

(** X9: a listed file named [stem ++ e], with [stem] not empty and [e] one
    of the extensions in any mix of upper and lower case, is yielded:
    it is in what the enumeration returns, and the enumeration returns
    when [is_file] raises for no listed path that it is asked of. *)
Theorem X9_iter_images_matches_extensions_in_any_case :
  forall fs directory listing p stem e,
    fs_rglob fs directory = Ret listing ->
    In p listing ->
    fs_is_file fs p = Ret true ->
    name_of p = (stem ++ e)%string ->
    stem <> EmptyString ->
    In (lower e) exts ->
    (forall out, iter_images_from_dir fs directory = Ret out -> In p out) /\
    (is_file_answers fs listing ->
     exists out, iter_images_from_dir fs directory = Ret out /\ In p out).
Proof.
  intros fs directory listing p stem e Hls Hin Hf Hname Hstem He.
  destruct (iter_images_from_dir_spec fs directory listing Hls)
    as (s & Hperm & _ & Hiter).
  assert (Himg : image_file fs p = true).
  { apply image_file_spec. split; [|exact Hf].
    destruct (ext_shape e He) as (x & -> & Hx & Hdots).
    rewrite (suffix_of_stem_ext p stem x Hname Hstem Hx Hdots). exact He. }
  assert (Hout : forall out, iter_images_from_dir fs directory = Ret out ->
                             In p out).
  { intros out Hret. rewrite Hiter in Hret.
    destruct (yield_images_cases fs s) as [[H _] | (e0 & q & H & _)];
      rewrite H in Hret; [|discriminate].
    injection Hret as <-. apply filter_In. split; [|exact Himg].
    apply Permutation_in with listing; assumption. }
  split; [exact Hout|].
  intros Hans.
  destruct (yield_images_cases fs s) as [[H _] | (e0 & q & _ & Hq & He0)].
  - eexists. split; [rewrite Hiter; exact H|].
    apply Hout. rewrite Hiter. exact H.
  - exfalso. apply is_image_raise in He0. destruct He0 as [He0 Hraise].
    destruct (Hans q) as [b Hb]; [|exact He0|congruence].
    apply Permutation_in with s; [apply Permutation_sym|]; assumption.
Qed.

(** X10: a path with an empty suffix (a name without extension, a hidden
    file such as [.png], a name that ends with a dot) and a path that
    [is_file] does not say is a file (a directory named like an image) are
    never yielded. *)
Theorem X10_iter_images_skips_names_without_suffix :
  forall fs directory p out,
    iter_images_from_dir fs directory = Ret out ->
    suffix p = EmptyString \/ fs_is_file fs p <> Ret true ->
    ~ In p out.
Proof.
  intros fs directory p out H Hp Hin.
  unfold iter_images_from_dir in H.
  destruct (fs_rglob fs directory) as [listing|e]; [|discriminate].
  cbn [bind] in H.
  destruct (sorted_paths listing) as (s & Hs & _). rewrite Hs in H.
  cbn [bind] in H.
  destruct (yield_images_cases fs s) as [[Hret _] | (e0 & q & Hraise & _)];
    rewrite H in *; [|discriminate].
  injection Hret as ->.
  apply filter_In in Hin. destruct Hin as [_ Him].
  apply image_file_spec in Him.
  destruct Him as [He Hf]. destruct Hp as [Hp|Hp]; [|congruence].
  rewrite Hp in He. simpl in He.
  repeat (destruct He as [He|He]; [discriminate He|]). exact He.
Qed.

(* ================================================================== *)
(** * The run: [main] *)

Lemma filter_map_Stdout (f : effect -> bool) lines :
  f (Stdout EmptyString) = false ->
  (forall l, f (Stdout l) = f (Stdout EmptyString)) ->
  filter f (map Stdout lines) = [].
Proof.
  intros H0 Hall. induction lines as [|l lines IH]; simpl; [reflexivity|].
  rewrite Hall, H0. exact IH.
Qed.

Lemma entry_effects_jsonl a entry evs :
  filter is_append_jsonl (entry_effects a entry evs)
  = [AppendJsonl (arg_out a) entry].
Proof.
  unfold entry_effects. simpl. rewrite !filter_app.
  rewrite filter_map_Stdout by reflexivity.
  destruct (arg_no_raw a); reflexivity.
Qed.

Lemma entry_effects_json a entry evs :
  filter is_write_json (entry_effects a entry evs)
  = if arg_no_raw a then [] else [WriteJson (json_file entry) entry].
Proof.
  unfold entry_effects. simpl. rewrite !filter_app.
  rewrite filter_map_Stdout by reflexivity.
  destruct (arg_no_raw a); reflexivity.
Qed.

Lemma entry_effects_network a entry evs :
  filter is_network (entry_effects a entry evs) = [Calls evs].
Proof.
  unfold entry_effects. simpl. rewrite !filter_app.
  rewrite filter_map_Stdout by reflexivity.
  destruct (arg_no_raw a); reflexivity.
Qed.

(** With fuel for five attempts every source gets its record. *)
Lemma main_loop_spec fuel ws a sources : forall k,
  (5 <= fuel)%nat ->
  exists results effs,
    main_loop fuel ws a k sources = Some (results, effs) /\
    length results = length sources /\
    (forall i src, nth_error sources i = Some src ->
                   exists r evs,
                     nth_error results i = Some r /\
                     analyze_one fuel (ws (k + i)%nat) src default_retries
                     = Some (r, evs)) /\
    filter is_append_jsonl effs = map (AppendJsonl (arg_out a)) results /\
    filter is_write_json effs
    = (if arg_no_raw a then []
       else map (fun r => WriteJson (json_file r) r) results) /\
    length (filter is_network effs) = length sources /\
    filter is_write_csv effs = [].
Proof.
  induction sources as [|src sources IH]; intros k Hfuel; cbn [main_loop].
  - exists [], []. repeat split; try reflexivity.
    + intros [|i] s H; discriminate H.
    + destruct (arg_no_raw a); reflexivity.
  - destruct (analyze_loop_terminates fuel (ws k) default_retries 0 src)
      as (r & evs & Hrun); [simpl; lia|].
    unfold analyze_one at 1. rewrite Hrun.
    destruct (IH (S k) Hfuel)
      as (results & effs & -> & Hlen & Hnth & Hj & Hw & Hn & Hc).
    exists (r :: results). eexists. split; [reflexivity|].
    split; [simpl; congruence|]. split; [|split; [|split; [|split]]].
    + intros [|i] s Hs; simpl in Hs.
      * injection Hs as <-. exists r, evs. split; [reflexivity|].
        rewrite Nat.add_0_r. exact Hrun.
      * destruct (Hnth i s Hs) as (r' & evs' & Hr' & Hrun').
        exists r', evs'. split; [exact Hr'|].
        rewrite <- Nat.add_succ_comm. exact Hrun'.
    + rewrite filter_app, entry_effects_jsonl, Hj. reflexivity.
    + rewrite filter_app, entry_effects_json, Hw.
      destruct (arg_no_raw a); reflexivity.
    + rewrite filter_app, length_app, entry_effects_network, Hn. reflexivity.
    + rewrite filter_app, Hc, app_nil_r. unfold entry_effects. simpl.
      rewrite !filter_app. rewrite filter_map_Stdout by reflexivity.
      destruct (arg_no_raw a); reflexivity.
Qed.

Lemma main_unfold_run fuel fs ws a src sources :
  main_sources fs a = Ret (src :: sources) ->
  main fuel fs ws a =
  match main_loop fuel ws a 0 (src :: sources) with
  | None => None
  | Some (results, effs) =>
      Some (Exited 0,
            [MkdirParentOf (arg_out a)]
            ++ effs
            ++ (if arg_csv a
                then [WriteCsv "out/results.csv" (csv_rows results (arg_top_k a))]
                else [])
            ++ [Stdout (summary_line a results)])
  end.
Proof. unfold main. intros ->. reflexivity. Qed.

Lemma run_effects_filter (f : effect -> bool) out effs (csv : bool) file rows line :
  f (MkdirParentOf out) = false ->
  f (WriteCsv file rows) = false ->
  f (Stdout line) = false ->
  filter f ([MkdirParentOf out] ++ effs
            ++ (if csv then [WriteCsv file rows] else [])
            ++ [Stdout line])
  = filter f effs.
Proof.
  intros H1 H2 H3. rewrite !filter_app.
  assert (E1 : filter f [MkdirParentOf out] = []) by (simpl; rewrite H1; reflexivity).
  assert (E2 : filter f (if csv then [WriteCsv file rows] else []) = [])
    by (destruct csv; simpl; rewrite ?H2; reflexivity).
  assert (E3 : filter f [Stdout line] = []) by (simpl; rewrite H3; reflexivity).
  rewrite E1, E2, E3. simpl. apply app_nil_r.
Qed.

(** X11: when at least one source is found, the run ends with exit code 0
    whatever happens to the single items; it makes one [analyze_one] call
    per source and appends to the JSONL file one record per source, in the
    order of the sources, the k-th being the record [analyze_one] returned
    for the k-th source. *)
Theorem X11_main_writes_one_jsonl_record_per_source :
  forall fuel fs ws a sources,
    main_sources fs a = Ret sources ->
    sources <> [] ->
    (5 <= fuel)%nat ->
    exists results effs,
      main fuel fs ws a = Some (Exited 0, effs) /\
      length results = length sources /\
      (forall i src, nth_error sources i = Some src ->
                     exists r evs,
                       nth_error results i = Some r /\
                       analyze_one fuel (ws i) src default_retries
                       = Some (r, evs)) /\
      filter is_append_jsonl effs = map (AppendJsonl (arg_out a)) results /\
      length (filter is_network effs) = length sources.
Proof.
  intros fuel fs ws a [|src sources] Hsrc Hne Hfuel; [congruence|].
  rewrite (main_unfold_run _ _ _ _ _ _ Hsrc).
  destruct (main_loop_spec fuel ws a (src :: sources) 0 Hfuel)
    as (results & effs & -> & Hlen & Hnth & Hj & _ & Hn & _).
  exists results. eexists. split; [reflexivity|].
  split; [exact Hlen|]. split; [exact Hnth|]. split.
  - rewrite run_effects_filter by reflexivity. exact Hj.
  - rewrite run_effects_filter by reflexivity. exact Hn.
Qed.

(** X12: unless [--no-raw] is given, the run writes one file per record,
    in order, named [out/<slug>.json] where the slug comes from the
    [source] of the record, has at most 100 characters and no slash or
    backslash, so that the file lies in [out] itself; with [--no-raw] it
    writes none. *)
Theorem X12_main_writes_per_item_files_inside_out :
  forall fuel fs ws a sources,
    main_sources fs a = Ret sources ->
    sources <> [] ->
    (5 <= fuel)%nat ->
    exists results effs,
      main fuel fs ws a = Some (Exited 0, effs) /\
      length results = length sources /\
      filter is_write_json effs
      = (if arg_no_raw a then []
         else map (fun r => WriteJson (json_file r) r) results) /\
      (forall r,
          json_file r
          = ("out/" ++ sanitize_filename (source r) ++ ".json")%string /\
          (String.length (sanitize_filename (source r)) <= 100)%nat /\
          ~ In (ascii_of_nat 47) (chars (sanitize_filename (source r))) /\
          ~ In (ascii_of_nat 92) (chars (sanitize_filename (source r)))).
Proof.
  intros fuel fs ws a [|src sources] Hsrc Hne Hfuel; [congruence|].
  rewrite (main_unfold_run _ _ _ _ _ _ Hsrc).
  destruct (main_loop_spec fuel ws a (src :: sources) 0 Hfuel)
    as (results & effs & -> & Hlen & _ & _ & Hw & _ & _).
  exists results. eexists. split; [reflexivity|].
  split; [exact Hlen|]. split.
  - rewrite run_effects_filter by reflexivity. exact Hw.
  - intros r. split; [reflexivity|]. split.
    + unfold sanitize_filename. rewrite str_take_length. lia.
    + split; intros Hin; unfold sanitize_filename in Hin;
        apply str_take_chars, sub_unsafe_safe in Hin; discriminate Hin.
Qed.

(** X13: a run with fuel for five attempts always ends, in one of three
    ways: uncaught exception exactly when reading the sources raises it,
    exit code 1 exactly when no source is found, exit code 0 otherwise.
    Unless it ends with exit code 0 it makes no call and writes no file;
    with exit code 1 it only prints the message on the error stream. *)
Theorem X13_main_exit_status :
  forall fuel fs ws a,
    (5 <= fuel)%nat ->
    exists status effs,
      main fuel fs ws a = Some (status, effs) /\
      (forall e, status = Uncaught e <-> main_sources fs a = Raise e) /\
      (status = Exited 1 <-> main_sources fs a = Ret []) /\
      (status = Exited 0 <->
       exists src sources, main_sources fs a = Ret (src :: sources)) /\
      (status = Exited 1 ->
       effs = [Stderr "No images found. Check your inputs."]) /\
      (status <> Exited 0 ->
       filter is_network effs = [] /\ filter is_write_json effs = [] /\
       filter is_append_jsonl effs = []).
Proof.
  intros fuel fs ws a Hfuel.
  destruct (main_sources fs a) as [[|src sources]|e] eqn:Hsrc.
  - unfold main. rewrite Hsrc. do 2 eexists. split; [reflexivity|].
    repeat split; try discriminate; try reflexivity; try congruence.
    intros (s & ss & H). discriminate H.
  - rewrite (main_unfold_run _ _ _ _ _ _ Hsrc).
    destruct (main_loop_spec fuel ws a (src :: sources) 0 Hfuel)
      as (results & effs & -> & _).
    do 2 eexists. split; [reflexivity|].
    repeat split; try discriminate; try congruence; eauto.
  - unfold main. rewrite Hsrc. do 2 eexists. split; [reflexivity|].
    repeat split; try discriminate; try reflexivity; try congruence.
    intros (s & ss & H). discriminate H.
Qed.

Lemma filter_none {A : Type} (f : A -> bool) l :
  (forall x, In x l -> f x = false) -> filter f l = [].
Proof.
  induction l as [|x l IH]; intros H; [reflexivity|].
  simpl. rewrite (H x (or_introl eq_refl)).
  apply IH. intros y Hy. apply H. right. exact Hy.
Qed.

Lemma main_no_sources fuel fs ws a :
  main_sources fs a = Ret [] ->
  main fuel fs ws a
  = Some (Exited 1, [Stderr "No images found. Check your inputs."]).
Proof. unfold main. intros ->. reflexivity. Qed.

(** X14: a run ends with exit code 1, after the message on the error
    stream and nothing else, when the option given holds an empty string,
    when the URL file has only blank lines and comments, and when the
    directory lists no image file. *)
Theorem X14_main_exits_1_when_nothing_to_do :
  forall fuel fs ws a,
    (truthy_arg (arg_image a) = false ->
     truthy_arg (arg_dir a) = false ->
     truthy_arg (arg_urls a) = false ->
     main fuel fs ws a
     = Some (Exited 1, [Stderr "No images found. Check your inputs."])) /\
    (forall text,
        truthy_arg (arg_image a) = false ->
        truthy_arg (arg_dir a) = false ->
        truthy_arg (arg_urls a) = true ->
        fs_read_text fs (arg_value (arg_urls a)) = Ret text ->
        (forall line, In line (splitlines text) -> skipped_line line) ->
        main fuel fs ws a
        = Some (Exited 1, [Stderr "No images found. Check your inputs."])) /\
    (truthy_arg (arg_image a) = false ->
     truthy_arg (arg_dir a) = true ->
     (exists listing,
         fs_rglob fs (arg_value (arg_dir a)) = Ret listing /\
         forall p, In p listing -> is_image fs p = Ret false) ->
     main fuel fs ws a
     = Some (Exited 1, [Stderr "No images found. Check your inputs."])).
Proof.
  intros fuel fs ws a. split; [|split].
  - intros Hi Hd Hu. apply main_no_sources.
    unfold main_sources. rewrite Hi, Hd, Hu. reflexivity.
  - intros text Hi Hd Hu Hread Hlines. apply main_no_sources.
    unfold main_sources, iter_urls_from_file. rewrite Hi, Hd, Hu, Hread. simpl.
    f_equal. apply url_lines_nil. exact Hlines.
  - intros Hi Hd (listing & Hls & Hnone). apply main_no_sources.
    unfold main_sources. rewrite Hi, Hd.
    destruct (iter_images_from_dir_spec fs (arg_value (arg_dir a)) listing Hls)
      as (s & Hperm & _ & ->).
    assert (Hs : forall p, In p s -> is_image fs p = Ret false).
    { intros p Hp. apply Hnone.
      apply Permutation_in with s; [apply Permutation_sym|]; assumption. }
    destruct (yield_images_cases fs s) as [[-> _] | (e & q & _ & Hq & He)].
    + rewrite filter_none; [reflexivity|].
      intros p Hp. unfold image_file. rewrite (Hs p Hp). reflexivity.
    + rewrite (Hs q Hq) in He. discriminate He.
Qed.

(** X15: the CSV file is written exactly when [--csv] is given, once, after
    all records, as [out/results.csv]; it holds the header and one row per
    source. *)
Theorem X15_main_writes_csv_on_request :
  forall fuel fs ws a sources,
    main_sources fs a = Ret sources ->
    sources <> [] ->
    (5 <= fuel)%nat ->
    exists results effs,
      main fuel fs ws a = Some (Exited 0, effs) /\
      filter is_write_csv effs
      = (if arg_csv a
         then [WriteCsv "out/results.csv" (csv_rows results (arg_top_k a))]
         else []) /\
      length (csv_rows results (arg_top_k a)) = S (length sources).
Proof.
  intros fuel fs ws a [|src sources] Hsrc Hne Hfuel; [congruence|].
  rewrite (main_unfold_run _ _ _ _ _ _ Hsrc).
  destruct (main_loop_spec fuel ws a (src :: sources) 0 Hfuel)
    as (results & effs & -> & Hlen & _ & _ & _ & _ & Hc).
  exists results. eexists. split; [reflexivity|]. split.
  - rewrite !filter_app, Hc. destruct (arg_csv a); reflexivity.
  - unfold csv_rows. cbn [length]. rewrite length_map, Hlen. reflexivity.
Qed.

(* ================================================================== *)
(** * Start-up: the credentials *)

(** X16: start-up ends with exit code 2 exactly when the endpoint or the
    key is not set or holds white space only; otherwise both are taken
    without the white space around them. *)
Theorem X16_credentials_must_not_be_blank :
  forall vision_endpoint vision_key,
    (load_credentials vision_endpoint vision_key = inl (Exited 2) <->
     blank_value vision_endpoint \/ blank_value vision_key) /\
    (~ (blank_value vision_endpoint \/ blank_value vision_key) ->
     load_credentials vision_endpoint vision_key
     = inr (strip (arg_value vision_endpoint), strip (arg_value vision_key))).
Proof.
  intros e k. unfold load_credentials, getenv_stripped, blank_value, truthy_str.
  fold (arg_value e). fold (arg_value k).
  rewrite !negb_involutive.
  rewrite <- (strip_empty (arg_value e)), <- (strip_empty (arg_value k)).
  destruct (String.eqb_spec (strip (arg_value e)) "") as [He|He],
           (String.eqb_spec (strip (arg_value k)) "") as [Hk|Hk]; simpl.
  - split; [split; [tauto | reflexivity] | tauto].
  - split; [split; [tauto | reflexivity] | tauto].
  - split; [split; [tauto | reflexivity] | tauto].
  - split; [split; [discriminate | tauto] | reflexivity].
Qed.

(* ================================================================== *)
(** * More on the retry controller *)

Lemma loop_body_file w retries a src evs t :
  is_url src = false ->
  loop_body w retries a src = (evs, t) ->
  filter is_url_call evs = [] /\
  match t with
  | Return r => source r = src
  | Continue s' => s' = src
  end.
Proof.
  intros Hurl. unfold loop_body, try_block. rewrite Hurl.
  destruct (open_rb w a src) as [f|e].
  - destruct (client_analyze w a f) as [result|e].
    + destruct (success_record_returns src result) as (st & _ & cap & ->).
      intros H; injection H as <- <-. split; reflexivity.
    + destruct (exc_class_of e);
        try (destruct (_ && _); intros H; injection H as <- <-; split; reflexivity).
      intros H; injection H as <- <-. split; reflexivity.
  - destruct (exc_class_of e);
      try (destruct (_ && _); intros H; injection H as <- <-; split; reflexivity).
    intros H; injection H as <- <-. split; reflexivity.
Qed.

Lemma analyze_loop_file fuel : forall w retries a src r trace,
  is_url src = false ->
  analyze_loop fuel w retries a src = Some (r, trace) ->
  source r = src /\ filter is_url_call trace = [].
Proof.
  induction fuel as [|fuel IH]; intros w retries a src r trace Hurl; [discriminate|].
  rewrite analyze_loop_unfold.
  destruct (loop_body w retries a src) as [evs t] eqn:Hbody.
  destruct (loop_body_file _ _ _ _ _ _ Hurl Hbody) as [Hevs Ht].
  destruct t as [r0|s'].
  - intros H; injection H as <- <-. split; assumption.
  - subst s'.
    destruct (analyze_loop fuel w retries (S a) src) as [[r1 evs1]|] eqn:Hrest;
      simpl; [|discriminate].
    intros H; injection H as <- <-.
    destruct (IH _ _ _ _ _ _ Hurl Hrest) as [Hs He].
    split; [exact Hs|]. rewrite filter_app, Hevs, He. reflexivity.
Qed.

(** X17: for a source that is no http(s) URL the record names the source
    as it was given, whatever the outcome and however many retries, and no
    attempt makes a URL call (no GET, no analyze-by-URL). *)
Theorem X17_file_source_is_kept :
  forall fuel w src retries r trace,
    is_url src = false ->
    analyze_one fuel w src retries = Some (r, trace) ->
    source r = src /\ filter is_url_call trace = [].
Proof.
  intros fuel w src retries r trace Hurl H.
  eapply analyze_loop_file; eauto.
Qed.

Lemma analyze_loop_schedule fuel : forall w retries a src r trace,
  analyze_loop fuel w retries a src = Some (r, trace) ->
  exists k,
    filter is_backoff trace = map EvBackoffSleep (seq (a + 1) k) /\
    attempts trace = S k /\
    (k = 0%nat \/ (Z.of_nat (a + k) <= retries)%Z).
Proof.
  induction fuel as [|fuel IH]; intros w retries a src r trace; [discriminate|].
  rewrite analyze_loop_unfold.
  destruct (loop_body w retries a src) as [evs t] eqn:Hbody.
  destruct (loop_body_events _ _ _ _ _ _ Hbody)
    as (calls & Hp & Hb & [[-> [r0 ->]] | [-> [s' ->]]]).
  - intros H; injection H as _ <-. exists 0%nat.
    split; [simpl; exact Hb|]. split; [|left; reflexivity].
    rewrite <- (app_nil_r (EvPacingSleep :: calls)), attempts_turn by exact Hp.
    reflexivity.
  - apply loop_body_continue_lt in Hbody.
    destruct (analyze_loop fuel w retries (S a) s') as [[r1 evs1]|] eqn:Hrest;
      simpl; [|discriminate].
    intros H; injection H as _ <-.
    destruct (IH _ _ _ _ _ _ Hrest) as (k & Hk & Ha & Hbound).
    exists (S k). split; [|split].
    + simpl. rewrite !filter_app, Hb, Hk. simpl.
      replace (S (a + 1)) with (S a + 1)%nat by lia. reflexivity.
    + change (EvPacingSleep :: (calls ++ [EvBackoffSleep (a + 1)]) ++ evs1)
        with ((EvPacingSleep :: calls ++ [EvBackoffSleep (a + 1)]) ++ evs1).
      rewrite attempts_turn_backoff by exact Hp. rewrite Ha. reflexivity.
    + right. destruct Hbound as [->|Hbound]; lia.
Qed.

(** X18: in every run the backoff sleeps are [backoff ** 1],
    [backoff ** 2], ..., one after each attempt but the last, in this
    order; there are at most [retries] of them, and none when [retries] is
    zero or negative: then exactly one attempt is made. *)
Theorem X18_backoff_schedule :
  forall fuel w src retries r trace,
    analyze_one fuel w src retries = Some (r, trace) ->
    filter is_backoff trace
    = map EvBackoffSleep (seq 1 (retries_made trace)) /\
    attempts trace = S (retries_made trace) /\
    (Z.of_nat (retries_made trace) <= Z.max 0 retries)%Z /\
    ((retries <= 0)%Z -> attempts trace = 1%nat /\ retries_made trace = 0%nat).
Proof.
  intros fuel w src retries r trace H.
  destruct (analyze_loop_schedule _ _ _ _ _ _ _ H) as (k & Hk & Ha & Hbound).
  assert (Hmade : retries_made trace = k).
  { unfold retries_made. rewrite Hk, length_map, length_seq. reflexivity. }
  rewrite Hmade. simpl in Hk.
  split; [exact Hk|]. split; [exact Ha|]. split.
  - destruct Hbound as [->|Hbound]; simpl in *; lia.
  - intros Hneg. destruct Hbound as [->|Hbound]; [|simpl in Hbound; lia].
    split; [exact Ha | reflexivity].
Qed.

Lemma try_block_file_raise w i src f e :
  is_url src = false ->
  open_rb w i src = Ret f ->
  client_analyze w i f = Raise e ->
  try_block w i src = (src, [EvOpen src; EvAnalyze src], Raise e).
Proof. unfold try_block. intros -> -> ->. reflexivity. Qed.

Lemma try_block_file_ret w i src f result :
  is_url src = false ->
  open_rb w i src = Ret f ->
  client_analyze w i f = Ret result ->
  try_block w i src
  = (src, [EvOpen src; EvAnalyze src], success_record src result).
Proof. unfold try_block. intros -> -> ->. reflexivity. Qed.

Lemma transient_turns_cons src a m :
  transient_turns src a (S m)
  = [EvPacingSleep; EvOpen src; EvAnalyze src; EvBackoffSleep (a + 1)]
    ++ transient_turns src (S a) m.
Proof. reflexivity. Qed.

Lemma transient_turns_counts src m : forall a rest,
  attempts (transient_turns src a m ++ rest) = (m + attempts rest)%nat /\
  retries_made (transient_turns src a m ++ rest) = (m + retries_made rest)%nat.
Proof.
  unfold attempts, retries_made.
  induction m as [|m IH]; intros a rest; [split; reflexivity|].
  rewrite transient_turns_cons, <- app_assoc.
  destruct (IH (S a) rest) as [H1 H2].
  simpl. rewrite H1, H2. split; reflexivity.
Qed.

(** Attempts that end in a retriable error of the service are gone
    through one by one. *)
Lemma analyze_loop_skips_transient w retries src m : forall a fuel,
  is_url src = false ->
  transient_until w src (a + m) ->
  (Z.of_nat (a + m) <= retries)%Z ->
  analyze_loop (m + fuel) w retries a src
  = after (transient_turns src a m) (analyze_loop fuel w retries (a + m) src).
Proof.
  induction m as [|m IH]; intros a fuel Hurl Htrans Hle.
  - rewrite Nat.add_0_r. simpl.
    destruct (analyze_loop fuel w retries a src) as [[r t]|]; reflexivity.
  - destruct (Htrans a ltac:(lia)) as (f & e & Hopen & Hraise & Hspec).
    pose proof (try_block_file_raise w a src f e Hurl Hopen Hraise) as Htry.
    destruct (loop_body_raise_spec w retries a src _ _ e Htry) as [Hretry _].
    change (S m + fuel)%nat with (S (m + fuel)).
    rewrite analyze_loop_unfold, Hretry by (split; [lia | exact Hspec]).
    rewrite IH; [| exact Hurl
                 | replace (S a + m)%nat with (a + S m)%nat by lia; exact Htrans
                 | lia].
    replace (S a + m)%nat with (a + S m)%nat by lia.
    rewrite transient_turns_cons.
    destruct (analyze_loop fuel w retries (a + S m) src) as [[r t]|]; reflexivity.
Qed.

(** X19: when the first [n] attempts on a file end in retriable errors of
    the service, [n] is at most [retries], and attempt [n] gets a result,
    [analyze_one] returns the successful record of that result after
    [n + 1] attempts and [n] backoff sleeps. *)
Theorem X19_success_after_transient_failures :
  forall w src retries n fuel f result,
    is_url src = false ->
    transient_until w src n ->
    (Z.of_nat n <= retries)%Z ->
    open_rb w n src = Ret f ->
    client_analyze w n f = Ret result ->
    (n < fuel)%nat ->
    exists r trace,
      analyze_one fuel w src retries = Some (r, trace) /\
      success_record src result = Ret r /\
      success r = true /\
      trace = transient_turns src 0 n ++ [EvPacingSleep; EvOpen src; EvAnalyze src] /\
      attempts trace = S n /\
      retries_made trace = n.
Proof.
  intros w src retries n fuel f result Hurl Htrans Hle Hopen Hret Hfuel.
  destruct (success_record_returns src result) as (st & _ & cap & Hrec).
  pose proof (try_block_file_ret w n src f result Hurl Hopen Hret) as Htry.
  rewrite Hrec in Htry.
  unfold analyze_one.
  replace fuel with (n + S (fuel - S n))%nat by lia.
  rewrite analyze_loop_skips_transient by assumption.
  simpl Nat.add. rewrite analyze_loop_unfold.
  rewrite (loop_body_ret _ retries _ _ _ _ _ Htry). simpl after.
  do 2 eexists. split; [reflexivity|]. split; [exact Hrec|].
  split; [reflexivity|]. split; [reflexivity|].
  destruct (transient_turns_counts src n 0
              [EvPacingSleep; EvOpen src; EvAnalyze src]) as [-> ->].
  split; unfold attempts, retries_made; simpl; lia.
Qed.


(* ================================================================== *)
(** * More on normalisation, presenter, resolver and CSV *)




Lemma slice_to_length {A : Type} (l : list A) k :
  length (slice_to l k)
  = if (0 <=? k)%Z then Nat.min (Z.to_nat k) (length l)
    else (length l - Z.to_nat (- k))%nat.
Proof.
  unfold slice_to. destruct (0 <=? k)%Z; rewrite length_firstn; lia.
Qed.

Lemma caption_lines_length entry : (length (caption_lines entry) <= 1)%nat.
Proof.
  unfold caption_lines.
  destruct (caption entry) as [cap|]; [|simpl; lia].
  destruct (caption_text cap) as [text|]; [|simpl; lia].
  destruct (truthy_str text); simpl; lia.
Qed.

(** X22: the presenter prints at most [top_k] tags when [top_k] is not
    negative; a negative [top_k] leaves out that many tags from the end of
    the list instead.  For a successful record it prints the header line,
    at most one caption line and one line per tag shown. *)
Theorem X22_presenter_number_of_lines :
  forall entry top_k threshold,
    length (shown_tags entry top_k threshold)
    = (if (0 <=? top_k)%Z
       then Nat.min (Z.to_nat top_k) (length (tags_above entry threshold))
       else (length (tags_above entry threshold) - Z.to_nat (- top_k))%nat) /\
    (length (caption_lines entry) <= 1)%nat /\
    (success entry = true ->
     length (print_result entry top_k threshold)
     = (1 + length (caption_lines entry)
        + length (shown_tags entry top_k threshold))%nat) /\
    (success entry = false ->
     length (print_result entry top_k threshold) = 2%nat).
Proof.
  intros entry top_k threshold. split; [|split; [|split]].
  - unfold shown_tags, tags_above. rewrite slice_to_length.
    destruct threshold; reflexivity.
  - apply caption_lines_length.
  - intros Hs. unfold print_result. rewrite Hs. simpl.
    rewrite length_app, length_map. reflexivity.
  - intros Hs. unfold print_result. rewrite Hs. reflexivity.
Qed.

Lemma firstn_In {A : Type} n : forall (l : list A) x,
  In x (firstn n l) -> In x l.
Proof.
  induction n as [|n IH]; intros [|a l] x; simpl; try tauto.
  intros [H|H]; [left; exact H | right; apply IH; exact H].
Qed.

Lemma StronglySorted_firstn {A : Type} (R : A -> A -> Prop) n : forall l,
  StronglySorted R l -> StronglySorted R (firstn n l).
Proof.
  induction n as [|n IH]; intros l H; simpl; [constructor|].
  destruct l as [|a l]; [constructor|].
  apply StronglySorted_inv in H. destruct H as [Hl Ha].
  constructor; [apply IH; exact Hl|].
  rewrite Forall_forall in *. intros x Hx. apply Ha.
  eapply firstn_In; eauto.
Qed.

Lemma slice_to_In {A : Type} (l : list A) k x : In x (slice_to l k) -> In x l.
Proof. unfold slice_to. destruct (0 <=? k)%Z; apply firstn_In. Qed.

Lemma loop_body_return_sorted w retries attempt src evs r :
  loop_body w retries attempt src = (evs, Return r) ->
  Forall not_nan (tags r) ->
  StronglySorted descending_nulls_last (tags r).
Proof.
  destruct (try_block w attempt src) as [[s' calls] res] eqn:Htry.
  destruct (try_block_cases _ _ _ _ _ _ Htry) as (_ & _ & [[e ->] | [result ->]]).
  - rewrite (loop_body_raise _ _ _ _ _ _ _ Htry).
    destruct (_ && _ && _); intros H; [discriminate|].
    injection H as _ <-. constructor.
  - unfold success_record in Htry.
    destruct (sort_tags_returns (normalize_tags (raw_tags_of (res_tags result))))
      as (s & Hs & Hperm).
    pose proof Hs as Hs'.
    rewrite Hs in Htry. simpl in Htry.
    rewrite (loop_body_ret _ _ _ _ _ _ _ Htry).
    intros H; injection H as _ <-. simpl. intros Hnan.
    destruct (sort_tags_spec (normalize_tags (raw_tags_of (res_tags result))))
      as (s2 & Hs2 & _ & Hsorted & _).
    { apply (Permutation_Forall (Permutation_sym Hperm)). exact Hnan. }
    rewrite Hs' in Hs2. injection Hs2 as <-. exact Hsorted.
Qed.

Lemma analyze_loop_tags_sorted fuel : forall w retries attempt src r trace,
  analyze_loop fuel w retries attempt src = Some (r, trace) ->
  Forall not_nan (tags r) ->
  StronglySorted descending_nulls_last (tags r).
Proof.
  induction fuel as [|fuel IH]; intros w retries attempt src r trace; [discriminate|].
  rewrite analyze_loop_unfold.
  destruct (loop_body w retries attempt src) as [evs [r0|s']] eqn:Hbody.
  - intros H; injection H as <- _. eapply loop_body_return_sorted; eauto.
  - destruct (analyze_loop fuel w retries (S attempt) s') as [[r1 evs1]|] eqn:Hrest;
      simpl; [|discriminate].
    intros H; injection H as <- _. eapply IH; eauto.
Qed.

(** X23: what the presenter shows of a record that [analyze_one] returned
    is, when no confidence of the record is NaN, in descending order of
    confidence, with the tags without confidence last, for every [top_k]
    and threshold; each tag shown is a tag of the record, and under a
    threshold its confidence is null or at least the threshold. *)
Theorem X23_presenter_shows_sorted_tags_of_analyze_one :
  forall fuel w src retries r trace top_k threshold,
    analyze_one fuel w src retries = Some (r, trace) ->
    (Forall not_nan (tags r) ->
     StronglySorted descending_nulls_last (shown_tags r top_k threshold)) /\
    (forall t, In t (shown_tags r top_k threshold) -> In t (tags r)) /\
    (forall th t,
        threshold = Some th ->
        In t (shown_tags r top_k threshold) ->
        tag_confidence t = None \/
        exists c, tag_confidence t = Some c /\ float_le th c).
Proof.
  intros fuel w src retries r trace top_k threshold H.
  pose proof (analyze_loop_tags_sorted _ _ _ _ _ _ _ H) as Hsorted.
  unfold shown_tags. split; [|split].
  - intros Hnan. specialize (Hsorted Hnan). unfold slice_to.
    destruct (0 <=? top_k)%Z; apply StronglySorted_firstn;
      destruct threshold; try exact Hsorted;
      apply StronglySorted_filter; exact Hsorted.
  - intros t Ht. apply slice_to_In in Ht.
    destruct threshold; [apply filter_In in Ht; tauto | exact Ht].
  - intros th t -> Ht. apply slice_to_In, filter_In in Ht.
    destruct Ht as [_ Hp]. unfold passes in Hp.
    destruct (tag_confidence t) as [c|]; [|left; reflexivity].
    right. exists c. split; [reflexivity|]. apply float_leb_spec. exact Hp.
Qed.

Lemma str_length_app (a b : string) :
  String.length (a ++ b) = (String.length a + String.length b)%nat.
Proof. induction a as [|c a IH]; simpl; congruence. Qed.

(** X24: a response without [Content-Type] header, or with one of fewer
    than five characters, makes the resolver raise its error. *)
Theorem X24_resolver_rejects_missing_content_type :
  forall w i url resp,
    session_get w i url (request_headers w i url) = Ret resp ->
    resp_content_type resp = None \/
    (String.length (content_type_of resp) < 5)%nat ->
    fetch_image_url_with_headers w i url = Raise (not_an_image url).
Proof.
  intros w i url resp Hget Hct.
  rewrite (fetch_image_url_with_headers_spec w i url resp Hget).
  destruct (contains "image" (content_type_of resp)) eqn:E; [|reflexivity].
  exfalso. apply contains_spec in E. destruct E as (pre & post & E).
  assert (Hlen : (5 <= String.length (content_type_of resp))%nat).
  { rewrite E, !str_length_app. simpl. lia. }
  destruct Hct as [Hnone|Hshort]; [|lia].
  unfold content_type_of in Hlen. rewrite Hnone in Hlen. simpl in Hlen. lia.
Qed.

(** X25: for every [top_k], also a negative one, the header has
    [3 + max(top_k, 0)] columns, the row of a failed record as many, and
    the row of a successful record three columns and one per tag up to
    [top_k]; so no row is wider than the header, and a successful row is as
    wide exactly when the record has at least [top_k] tags. *)
Theorem X25_csv_row_width :
  forall e top_k,
    length (csv_header top_k) = (3 + Z.to_nat top_k)%nat /\
    (success e = false ->
     length (csv_row e top_k) = (3 + Z.to_nat top_k)%nat) /\
    (success e = true ->
     length (csv_row e top_k)
     = (3 + Nat.min (Z.to_nat top_k) (length (tags e)))%nat) /\
    (length (csv_row e top_k) <= length (csv_header top_k))%nat.
Proof.
  intros e top_k.
  assert (Hf : success e = false ->
               length (csv_row e top_k) = (3 + Z.to_nat top_k)%nat).
  { intros Hs. rewrite csv_row_failure_length by exact Hs.
    apply csv_header_length. }
  assert (Ht : success e = true ->
               length (csv_row e top_k)
               = (3 + Nat.min (Z.to_nat top_k) (length (tags e)))%nat).
  { intros Hs. unfold csv_row. rewrite Hs. cbv zeta. simpl negb. cbv iota.
    rewrite slice_to_length.
    destruct (Z.leb_spec 0 (Z.of_nat (length (csv_header top_k)))); [|lia].
    rewrite Nat2Z.id, csv_header_length.
    rewrite length_app, length_map, slice_to_length. simpl length.
    destruct (Z.leb_spec 0 top_k); lia. }
  split; [apply csv_header_length|]. split; [exact Hf|]. split; [exact Ht|].
  rewrite csv_header_length.
  destruct (success e) eqn:Hs; [rewrite Ht | rewrite Hf]; try reflexivity; lia.
Qed.

(* ================================================================== *)
(** * Instances *)

Lemma X2_witness_slash :
  In underscore (chars (sanitize_filename "a/b")) /\
  (is_unsafe underscore = false /\
   underscore <> ascii_of_nat 47 /\ underscore <> ascii_of_nat 92).
Proof.
  split; [right; left; reflexivity|].
  apply (X2_sanitize_filename_has_no_unsafe_character "a/b" underscore).
  right; left; reflexivity.
Defined.

Lemma X4_witness_long_source :
  (100 <= String.length long_source)%nat /\
  sanitize_filename (long_source ++ "abc") = sanitize_filename (long_source ++ "xyz").
Proof.
  split; [apply Nat.leb_le; vm_compute; reflexivity|].
  apply (X4_sanitize_filename_ignores_tail long_source "abc" "xyz").
  apply Nat.leb_le; vm_compute; reflexivity.
Defined.

Lemma X5_witness_urls_txt :
  In url_1 (urls_of_text urls_txt) /\
  ((exists line, In line (splitlines urls_txt) /\ url_1 = strip line) /\
   url_1 <> EmptyString /\
   String.prefix "#" url_1 = false /\
   strip url_1 = url_1 /\
   (exists c r, url_1 = String c r /\ is_space c = false) /\
   is_space (last (chars url_1) LF) = false /\
   (forall c, In c (chars url_1) -> is_line_boundary c = false)).
Proof.
  split; [left; reflexivity|].
  apply (X5_urls_are_stripped_lines urls_txt url_1).
  left; reflexivity.
Defined.

Lemma url_1_clean : clean_url url_1.
Proof.
  split; [discriminate|]. split; [reflexivity|]. split; [reflexivity|].
  intros c Hc. simpl in Hc.
  repeat (destruct Hc as [<-|Hc]; [reflexivity|]). destruct Hc.
Defined.

Lemma url_2_clean : clean_url url_2.
Proof.
  split; [discriminate|]. split; [reflexivity|]. split; [reflexivity|].
  intros c Hc. simpl in Hc.
  repeat (destruct Hc as [<-|Hc]; [reflexivity|]). destruct Hc.
Defined.

Lemma X7_witness_two_urls :
  urls_of_text (join_lines [url_1; url_2]) = [url_1; url_2] /\
  urls_of_text (join_lines [url_1; url_2] ++ String LF EmptyString)
  = [url_1; url_2].
Proof.
  apply (X7_urls_round_trip [url_1; url_2]).
  constructor; [exact url_1_clean|]. constructor; [exact url_2_clean|].
  constructor.
Defined.

Lemma photos_is_file_answers :
  is_file_answers photos
    [["d"; "sub"; "c.png"]; ["d"; "b.txt"]; ["d"; "a.JPG"]; ["d"; "sub"];
     ["d"; "old.png"]].
Proof. intros p _ _. eexists. reflexivity. Defined.

Lemma X9_witness_upper_case_jpg :
  (forall out, iter_images_from_dir photos "d" = Ret out ->
               In ["d"; "a.JPG"] out) /\
  exists out,
    iter_images_from_dir photos "d" = Ret out /\ In ["d"; "a.JPG"] out.
Proof.
  destruct (X9_iter_images_matches_extensions_in_any_case
              photos "d"
              [["d"; "sub"; "c.png"]; ["d"; "b.txt"]; ["d"; "a.JPG"];
               ["d"; "sub"]; ["d"; "old.png"]]
              ["d"; "a.JPG"] "a" ".JPG") as [Hall Hret].
  - reflexivity.
  - right; right; left; reflexivity.
  - reflexivity.
  - reflexivity.
  - discriminate.
  - left; reflexivity.
  - split; [exact Hall | exact (Hret photos_is_file_answers)].
Defined.

Lemma X10_witness_folder_named_like_image :
  iter_images_from_dir photos "d" = Ret [["d"; "a.JPG"]; ["d"; "sub"; "c.png"]] /\
  ~ In ["d"; "old.png"] [["d"; "a.JPG"]; ["d"; "sub"; "c.png"]].
Proof.
  split; [vm_compute; reflexivity|].
  apply (X10_iter_images_skips_names_without_suffix photos "d").
  - vm_compute; reflexivity.
  - right. discriminate.
Defined.

Lemma urls_txt_sources :
  main_sources photos (args_urls "urls.txt") = Ret [url_1; url_2].
Proof. vm_compute; reflexivity. Defined.

Lemma X11_witness_two_urls :
  exists results effs,
    main 5 photos (fun _ => service_up) (args_urls "urls.txt")
    = Some (Exited 0, effs) /\
    length results = length [url_1; url_2] /\
    (forall i src, nth_error [url_1; url_2] i = Some src ->
                   exists r evs,
                     nth_error results i = Some r /\
                     analyze_one 5 service_up src default_retries
                     = Some (r, evs)) /\
    filter is_append_jsonl effs
    = map (AppendJsonl (arg_out (args_urls "urls.txt"))) results /\
    length (filter is_network effs) = length [url_1; url_2].
Proof.
  apply (X11_main_writes_one_jsonl_record_per_source
           5 photos (fun _ => service_up) (args_urls "urls.txt") [url_1; url_2]).
  - exact urls_txt_sources.
  - discriminate.
  - apply Nat.leb_le; reflexivity.
Defined.

Lemma X12_witness_two_urls :
  exists results effs,
    main 5 photos (fun _ => service_up) (args_urls "urls.txt")
    = Some (Exited 0, effs) /\
    length results = length [url_1; url_2] /\
    filter is_write_json effs
    = (if arg_no_raw (args_urls "urls.txt") then []
       else map (fun r => WriteJson (json_file r) r) results) /\
    (forall r,
        json_file r
        = ("out/" ++ sanitize_filename (source r) ++ ".json")%string /\
        (String.length (sanitize_filename (source r)) <= 100)%nat /\
        ~ In (ascii_of_nat 47) (chars (sanitize_filename (source r))) /\
        ~ In (ascii_of_nat 92) (chars (sanitize_filename (source r)))).
Proof.
  apply (X12_main_writes_per_item_files_inside_out
           5 photos (fun _ => service_up) (args_urls "urls.txt") [url_1; url_2]).
  - exact urls_txt_sources.
  - discriminate.
  - apply Nat.leb_le; reflexivity.
Defined.

Lemma X13_witness_two_urls :
  exists status effs,
    main 5 photos (fun _ => service_up) (args_urls "urls.txt")
    = Some (status, effs) /\
    (forall e, status = Uncaught e <->
               main_sources photos (args_urls "urls.txt") = Raise e) /\
    (status = Exited 1 <-> main_sources photos (args_urls "urls.txt") = Ret []) /\
    (status = Exited 0 <->
     exists src sources,
       main_sources photos (args_urls "urls.txt") = Ret (src :: sources)) /\
    (status = Exited 1 ->
     effs = [Stderr "No images found. Check your inputs."]) /\
    (status <> Exited 0 ->
     filter is_network effs = [] /\ filter is_write_json effs = [] /\
     filter is_append_jsonl effs = []).
Proof.
  apply (X13_main_exit_status 5 photos (fun _ => service_up) (args_urls "urls.txt")).
  apply Nat.leb_le; reflexivity.
Defined.

Lemma X14_witness_comments_only :
  main 5 nothing_to_do (fun _ => service_up) (args_urls "urls.txt")
  = Some (Exited 1, [Stderr "No images found. Check your inputs."]) /\
  main 5 nothing_to_do (fun _ => service_up) (args_dir "d")
  = Some (Exited 1, [Stderr "No images found. Check your inputs."]) /\
  main 5 nothing_to_do (fun _ => service_up) (args_image "")
  = Some (Exited 1, [Stderr "No images found. Check your inputs."]).
Proof.
  split; [|split].
  - apply (proj1 (proj2 (X14_main_exits_1_when_nothing_to_do
                           5 nothing_to_do (fun _ => service_up)
                           (args_urls "urls.txt")))
             ("# nothing yet" ++ String LF "   " ++ String LF EmptyString)%string);
      try reflexivity.
    intros line [<-|[<-|[]]]; [right; reflexivity | left; reflexivity].
  - apply (proj2 (proj2 (X14_main_exits_1_when_nothing_to_do
                           5 nothing_to_do (fun _ => service_up)
                           (args_dir "d"))));
      try reflexivity.
    exists [["d"; "notes.txt"]; ["d"; ".png"]]. split; [reflexivity|].
    intros p [<-|[<-|[]]]; reflexivity.
  - apply (proj1 (X14_main_exits_1_when_nothing_to_do
                    5 nothing_to_do (fun _ => service_up) (args_image "")));
      reflexivity.
Defined.

Lemma X15_witness_two_urls :
  exists results effs,
    main 5 photos (fun _ => service_up) (args_urls "urls.txt")
    = Some (Exited 0, effs) /\
    filter is_write_csv effs
    = (if arg_csv (args_urls "urls.txt")
       then [WriteCsv "out/results.csv"
                      (csv_rows results (arg_top_k (args_urls "urls.txt")))]
       else []) /\
    length (csv_rows results (arg_top_k (args_urls "urls.txt")))
    = S (length [url_1; url_2]).
Proof.
  apply (X15_main_writes_csv_on_request
           5 photos (fun _ => service_up) (args_urls "urls.txt") [url_1; url_2]).
  - exact urls_txt_sources.
  - discriminate.
  - apply Nat.leb_le; reflexivity.
Defined.

Lemma service_down_run :
  analyze_one 5 service_down "cat.jpg" 4
  = Some (failure_record "cat.jpg" service_unavailable,
          transient_turns "cat.jpg" 0 4
          ++ [EvPacingSleep; EvOpen "cat.jpg"; EvAnalyze "cat.jpg"]).
Proof. vm_compute; reflexivity. Defined.

Lemma X17_witness_service_down :
  source (failure_record "cat.jpg" service_unavailable) = "cat.jpg"%string /\
  filter is_url_call
         (transient_turns "cat.jpg" 0 4
          ++ [EvPacingSleep; EvOpen "cat.jpg"; EvAnalyze "cat.jpg"]) = [].
Proof.
  apply (X17_file_source_is_kept 5 service_down "cat.jpg" 4).
  - reflexivity.
  - exact service_down_run.
Defined.

Lemma X18_witness_service_down :
  filter is_backoff
         (transient_turns "cat.jpg" 0 4
          ++ [EvPacingSleep; EvOpen "cat.jpg"; EvAnalyze "cat.jpg"])
  = [EvBackoffSleep 1; EvBackoffSleep 2; EvBackoffSleep 3; EvBackoffSleep 4].
Proof.
  exact (proj1 (X18_backoff_schedule
                  5 service_down "cat.jpg" 4 _ _ service_down_run)).
Defined.

Lemma spec_retriable_503 : spec_retriable service_unavailable.
Proof.
  left. split; [reflexivity|]. exists 503%Z. split; [reflexivity|].
  right; right; right; left; reflexivity.
Defined.


Lemma service_flaky_transient : transient_until service_flaky "cat.jpg" 2.
Proof.
  intros i Hi. exists "bytes"%string, service_unavailable.
  destruct i as [|[|i]]; [ | | exfalso; lia];
    (split; [reflexivity|]; split; [reflexivity | exact spec_retriable_503]).
Defined.

Lemma X19_witness_third_attempt :
  exists r trace,
    analyze_one 5 service_flaky "cat.jpg" 4 = Some (r, trace) /\
    success_record "cat.jpg" cat_result = Ret r /\
    success r = true /\
    trace = transient_turns "cat.jpg" 0 2
            ++ [EvPacingSleep; EvOpen "cat.jpg"; EvAnalyze "cat.jpg"] /\
    attempts trace = 3%nat /\
    retries_made trace = 2%nat.
Proof.
  apply (X19_success_after_transient_failures
           service_flaky "cat.jpg" 4 2 5 "bytes" cat_result).
  - reflexivity.
  - exact service_flaky_transient.
  - vm_compute; discriminate.
  - reflexivity.
  - reflexivity.
  - apply Nat.ltb_lt; reflexivity.
Defined.



Lemma X23_witness_cat :
  Forall not_nan (tags cat_record) /\
  StronglySorted descending_nulls_last
                 (shown_tags cat_record 5 (Some (Fin (1 # 2)))) /\
  (forall t, In t (shown_tags cat_record 5 (Some (Fin (1 # 2)))) ->
             In t (tags cat_record)) /\
  (forall th t,
      Some (Fin (1 # 2)) = Some th ->
      In t (shown_tags cat_record 5 (Some (Fin (1 # 2)))) ->
      tag_confidence t = None \/
      exists c, tag_confidence t = Some c /\ float_le th c).
Proof.
  assert (Hnan : Forall not_nan (tags cat_record))
    by (constructor; [discriminate | constructor]).
  split; [exact Hnan|].
  destruct (X23_presenter_shows_sorted_tags_of_analyze_one
              1 service_up "cat.jpg" 4 cat_record
              [EvPacingSleep; EvOpen "cat.jpg"; EvAnalyze "cat.jpg"] 5
              (Some (Fin (1 # 2))))
    as (Hsorted & Hrest); [vm_compute; reflexivity|].
  split; [exact (Hsorted Hnan) | exact Hrest].
Defined.

Lemma X24_witness_no_header :
  fetch_image_url_with_headers service_untyped 0 url_1
  = Raise (not_an_image url_1).
Proof.
  apply (X24_resolver_rejects_missing_content_type
           service_untyped 0 url_1 (mk_response url_1 None)).
  - reflexivity.
  - left. reflexivity.
Defined.
